(** * agent-knowledge-distiller: scoring and selection pipeline

    A shallow embedding of
      - [src/services/scorer.service.ts]      ([preFilter], [scoreMemory]),
      - [src/services/llm-scorer.service.ts]  ([scoreBatch], [scoreSingleBatch],
                                               [parseScores], [clampScore]),
      - [src/services/distiller.service.ts]   ([distill]),
      - [src/services/qdrant.service.ts]      ([upsertGoldenMemories]),
    followed by the properties of the pipeline.

    Conventions.  A JavaScript string is the list of its UTF-16 code units.
    A JavaScript number is [NaN], an infinity, or a finite rational (every
    finite double is one; the sign of zero is not tracked, no operation
    modelled here distinguishes it).  The TypeScript types are erased at run
    time, so a category is a plain string. *)

From Stdlib Require Import List ZArith NArith QArith Qround Qminmax Bool Lia Lqa.
From Stdlib Require Import Strings.String Strings.Ascii.
From Stdlib Require Import Sorting.Sorted Sorting.Permutation.
From Equations Require Import Equations.
Import ListNotations.

Set Implicit Arguments.

(* ===================================================================== *)
(** ** JavaScript strings *)
(* ===================================================================== *)

Module JsString.

Definition jsstring := list N.

(** A literal of ASCII characters, as its code units. *)
Definition js (s : string) : jsstring :=
  List.map N_of_ascii (list_ascii_of_string s).

Fixpoint str_eqb (a b : jsstring) : bool :=
  match a, b with
  | [], [] => true
  | x :: a', y :: b' => N.eqb x y && str_eqb a' b'
  | _, _ => false
  end.

(** [startsWith hay needle]: [needle] is a prefix of [hay]. *)
Fixpoint startsWith (hay needle : jsstring) : bool :=
  match needle, hay with
  | [], _ => true
  | _ :: _, [] => false
  | x :: needle', y :: hay' => N.eqb x y && startsWith hay' needle'
  end.

(** [String.prototype.includes]: [needle] occurs in [hay] at some offset. *)
Fixpoint includes (hay needle : jsstring) : bool :=
  startsWith hay needle
  || match hay with
     | [] => false
     | _ :: hay' => includes hay' needle
     end.

(** [Array.prototype.includes] on an array of strings. *)
Definition arr_includes (arr : list jsstring) (s : jsstring) : bool :=
  existsb (str_eqb s) arr.

(** ECMAScript WhiteSpace and LineTerminator code units, the ones
    [String.prototype.trim] strips: TAB, LF, VT, FF, CR, SP, NBSP, the
    Unicode Zs characters, LS, PS and ZWNBSP. *)
Definition isWhiteSpace (c : N) : bool :=
  ((9 <=? c) && (c <=? 13) || (c =? 32) || (c =? 160) || (c =? 5760)
   || (8192 <=? c) && (c <=? 8202) || (c =? 8232) || (c =? 8233)
   || (c =? 8239) || (c =? 8287) || (c =? 12288) || (c =? 65279))%N.

Fixpoint trimStart (s : jsstring) : jsstring :=
  match s with
  | [] => []
  | c :: s' => if isWhiteSpace c then trimStart s' else s
  end.

Definition trimEnd (s : jsstring) : jsstring := rev (trimStart (rev s)).

Definition trim (s : jsstring) : jsstring := trimEnd (trimStart s).

(** Canonicalize of a regular expression with the [i] flag and without the
    [u] flag, on the code units below 128: a lower-case ASCII letter goes
    to its capital.  A code unit from 128 up is never canonicalized to one
    below 128 (ECMA-262, Canonicalize, step "if ch >= 128 and cu < 128
    return ch"), so against an ASCII pattern character it stays different
    whatever its own image is; it is left as it is here. *)
Definition canonicalize (c : N) : N :=
  (if (97 <=? c) && (c <=? 122) then c - 32 else c)%N.

(** A whole-string match [/^word$/i] for a literal ASCII [word]. *)
Fixpoint matchesWordIgnoreCase (s word : jsstring) : bool :=
  match s, word with
  | [], [] => true
  | x :: s', y :: word' =>
      N.eqb (canonicalize x) (canonicalize y) && matchesWordIgnoreCase s' word'
  | _, _ => false
  end.

(** [String.prototype.toLowerCase] follows the Unicode case tables, which
    are not part of the repository: it is a parameter of the development. *)
Class JsRuntime := { toLowerCase : jsstring -> jsstring }.

(** A literal without capital ASCII letters and without code units from
    128 up: lower-casing leaves each of its characters alone. *)
Definition lowerAscii (w : jsstring) : bool :=
  forallb (fun c => (c <? 128) && negb ((65 <=? c) && (c <=? 90)))%N w.

(** A literal that neither starts nor ends with white space. *)
Definition solidEnds (w : jsstring) : bool :=
  match w, rev w with
  | a :: _, z :: _ => negb (isWhiteSpace a) && negb (isWhiteSpace z)
  | _, _ => false
  end.

(** Three facts of the Unicode tables behind [toLowerCase], needed where a
    property speaks of the text before lower-casing.  Lower-casing maps
    each character on its own (the one context rule, for a final capital
    sigma, looks at cased letters only), so an occurrence of a lower-case
    ASCII literal stays where it is; no character gets shorter and only
    U+0130 gets longer, by one code unit; white space is mapped to itself
    and nothing else is mapped to white space. *)
Record LowerCaseLaws (rt : JsRuntime) : Prop := {
  toLowerCase_keeps :
    forall s w, lowerAscii w = true -> includes s w = true ->
                includes (toLowerCase s) w = true;
  toLowerCase_length :
    forall s, (List.length s <= List.length (toLowerCase s) <= 2 * List.length s)%nat;
  toLowerCase_trim :
    forall s, toLowerCase (trim s) = trim (toLowerCase s)
}.

(** On a string of code units below 128, [toLowerCase] maps [A]-[Z] to
    [a]-[z] and leaves everything else: the instance the concrete examples
    run with, all of whose texts are ASCII. *)
Definition asciiLowerChar (c : N) : N :=
  (if (65 <=? c) && (c <=? 90) then c + 32 else c)%N.

Definition asciiToLowerCase (s : jsstring) : jsstring :=
  List.map asciiLowerChar s.

Definition asciiRuntime : JsRuntime := {| toLowerCase := asciiToLowerCase |}.

End JsString.

Import JsString.

(* ===================================================================== *)
(** ** JavaScript numbers *)
(* ===================================================================== *)

Module JsNumber.

Inductive number : Type :=
| NaN
| PosInf
| NegInf
| Fin (q : Q).

Definition ofZ (z : Z) : number := Fin (inject_Z z).

(** [Number.isFinite]. *)
Definition isFinite (x : number) : bool :=
  match x with
  | Fin _ => true
  | _ => false
  end.

(** [Math.round] on a finite number: the nearest integer, a tie going
    towards plus infinity. *)
Definition round (q : Q) : Z := Qfloor (q + (1 # 2)).

(** [x <= y] on numbers; false as soon as one side is [NaN]. *)
Definition leb (x y : number) : bool :=
  match x, y with
  | NaN, _ | _, NaN => false
  | NegInf, _ => true
  | _, PosInf => true
  | PosInf, _ => false
  | _, NegInf => false
  | Fin a, Fin b => Qle_bool a b
  end.

(** [x === y] on numbers. *)
Definition strictEq (x y : number) : bool :=
  match x, y with
  | PosInf, PosInf => true
  | NegInf, NegInf => true
  | Fin a, Fin b => Qeq_bool a b
  | _, _ => false
  end.

(** ToIntegerOrInfinity of a finite number: truncation towards zero. *)
Definition truncate (q : Q) : Z :=
  if Qle_bool 0 q then Qfloor q else Qceiling q.

End JsNumber.

Import JsNumber.

(* ===================================================================== *)
(** ** Shared types ([types/index.ts]) *)
(* ===================================================================== *)

Module Types.

Record AgentMemory : Type := {
  id : jsstring;
  text : jsstring;
  namespace : jsstring;
  source_agent : jsstring;
  source_type : jsstring;
  userId : jsstring;
  timestamp : number;
  vector : option (list number)
}.

Inductive ScoringMethod : Type := Rule | Llm.

(** [ScoredMemory extends AgentMemory]: the spread [...memory] copies the
    record's own fields, kept here as [base].  [qualityScore] is an
    integer on every path that builds one (integer deltas in [scoreMemory],
    [Math.round] or the constant 50 in [clampScore]). *)
Record ScoredMemory : Type := {
  base : AgentMemory;
  qualityScore : Z;
  category : jsstring;
  tags : list jsstring;
  distilledText : option jsstring;
  scoringMethod : ScoringMethod;
  llmReasoning : option jsstring
}.

(** The ten members of [MemoryCategory]. *)
Definition trading_win_pattern : jsstring := js "trading_win_pattern".
Definition trading_loss_lesson : jsstring := js "trading_loss_lesson".
Definition market_insight : jsstring := js "market_insight".
Definition bug_fix_pattern : jsstring := js "bug_fix_pattern".
Definition architecture_decision : jsstring := js "architecture_decision".
Definition code_pattern : jsstring := js "code_pattern".
Definition process_improvement : jsstring := js "process_improvement".
Definition project_context : jsstring := js "project_context".
Definition system_rule : jsstring := js "system_rule".
Definition noise : jsstring := js "noise".

(** [ALLOWED_CATEGORIES] of [llm-scorer.service.ts]. *)
Definition ALLOWED_CATEGORIES : list jsstring :=
  [ trading_win_pattern; trading_loss_lesson; market_insight;
    bug_fix_pattern; architecture_decision; code_pattern;
    process_improvement; project_context; system_rule; noise ].

(** What the data model asks of a scored record: a quality score in the
    range 0-100 and a category out of the closed set. *)
Definition wellFormed (r : ScoredMemory) : Prop :=
  (0 <= qualityScore r <= 100)%Z /\ In (category r) ALLOWED_CATEGORIES.

Record DistillConfig : Type := {
  agents : list jsstring;
  minQualityScore : number;
  maxOutputPerAgent : number;
  categories : list jsstring;
  dryRun : bool;
  createSnapshot : bool;
  forceRuleOnly : bool
}.

End Types.

Import Types.

(* ===================================================================== *)
(** ** The pre-filter and the heuristic scorer ([scorer.service.ts]) *)
(* ===================================================================== *)

Module Scorer.

(** The junk markers of [preFilter], in the order they are tested. *)
Definition junkSubstrings : list jsstring :=
  [ js "subagent direct hook test"; js "skipping:"; js "no output" ].

(** The alternatives of [/^(ok|yes|no|done|test)$/i]. *)
Definition junkWords : list jsstring :=
  [ js "ok"; js "yes"; js "no"; js "done"; js "test" ].

(** The agents [scoreMemory] has a branch for. *)
Definition knownAgents : list jsstring :=
  [ js "trader"; js "fullstack"; js "scrum"; js "assistant" ].

(** One [if] of the positive part of [scoreMemory]: the keywords tested on
    the lower-cased text, the points added and the tag pushed. *)
Record KeywordGroup : Type := {
  keywords : list jsstring;
  delta : Z;
  tag : jsstring
}.

(** The Vietnamese keywords, as the source file spells them (precomposed
    characters), in UTF-16 code units. *)
Definition kw_thang : jsstring := [116; 104; 7855; 110; 103]%N.
Definition kw_loi_nhuan : jsstring :=
  [108; 7907; 105; 32; 110; 104; 117; 7853; 110]%N.
Definition kw_mau : jsstring := [109; 7851; 117]%N.
Definition kw_da_sua : jsstring := [273; 227; 32; 115; 7917; 97]%N.
Definition kw_quy_tac : jsstring := [113; 117; 121; 32; 116; 7855; 99]%N.
Definition kw_luat : jsstring := [108; 117; 7853; 116]%N.
Definition kw_bai_hoc : jsstring := [98; 224; 105; 32; 104; 7885; 99]%N.
Definition kw_kinh_nghiem : jsstring :=
  [107; 105; 110; 104; 32; 110; 103; 104; 105; 7879; 109]%N.
Definition kw_thua : jsstring := js "thua".
Definition kw_thi_truong : jsstring :=
  [116; 104; 7883; 32; 116; 114; 432; 7901; 110; 103]%N.

Definition tag_win : jsstring := js "win".
Definition tag_pattern : jsstring := js "pattern".
Definition tag_fix : jsstring := js "fix".
Definition tag_rule : jsstring := js "rule".
Definition tag_technical : jsstring := js "technical".
Definition tag_architecture : jsstring := js "architecture".
Definition tag_lesson : jsstring := js "lesson".

Definition winGroup : KeywordGroup :=
  {| keywords := [js "win"; kw_thang; kw_loi_nhuan]; delta := 15; tag := tag_win |}.
Definition patternGroup : KeywordGroup :=
  {| keywords := [js "pattern"; kw_mau]; delta := 10; tag := tag_pattern |}.
Definition fixGroup : KeywordGroup :=
  {| keywords := [js "fix"; js "resolved"; kw_da_sua]; delta := 10; tag := tag_fix |}.
Definition ruleGroup : KeywordGroup :=
  {| keywords := [js "rule"; kw_quy_tac; kw_luat]; delta := 10; tag := tag_rule |}.
Definition technicalGroup : KeywordGroup :=
  {| keywords := [js "rsi"; js "macd"; js "sma"]; delta := 5; tag := tag_technical |}.
Definition architectureGroup : KeywordGroup :=
  {| keywords := [js "architecture"; js "design"]; delta := 10;
     tag := tag_architecture |}.
Definition lessonGroup : KeywordGroup :=
  {| keywords := [js "lesson"; kw_bai_hoc; kw_kinh_nghiem]; delta := 15;
     tag := tag_lesson |}.

(** The seven positive [if]s, in source order. *)
Definition keywordGroups : list KeywordGroup :=
  [ winGroup; patternGroup; fixGroup; ruleGroup; technicalGroup;
    architectureGroup; lessonGroup ].

(** The condition of one positive [if]: some keyword of the group occurs. *)
Definition groupMatches (text : jsstring) (g : KeywordGroup) : bool :=
  existsb (includes text) (keywords g).

(** The running [score] and [tags] after the positive [if]s, starting from
    what they hold before them. *)
Fixpoint applyGroups (text : jsstring) (gs : list KeywordGroup)
    (st : Z * list jsstring) : Z * list jsstring :=
  match gs with
  | [] => st
  | g :: gs' =>
      applyGroups text gs'
        (if groupMatches text g
         then (fst st + delta g, snd st ++ [tag g])%Z
         else st)
  end.

(** The conditions of the four negative [if]s. *)
Definition errorAnd500 (text : jsstring) : bool :=
  includes text (js "error") && includes text (js "500").
Definition tooShort (text : jsstring) : bool :=
  (List.length text <? 30)%nat.
Definition skippingOrNoOutput (text : jsstring) : bool :=
  includes text (js "skipping") || includes text (js "no output").
Definition testNotBacktest (text : jsstring) : bool :=
  includes text (js "test") && negb (includes text (js "backtest")).

Local Open Scope Z_scope.

(** The two length bonuses and the four penalties, applied to [score]. *)
Definition adjust (text : jsstring) (score : Z) : Z :=
  let score := if (200 <? List.length text)%nat then score + 5 else score in
  let score := if (500 <? List.length text)%nat then score + 5 else score in
  let score := if errorAnd500 text then score - 10 else score in
  let score := if tooShort text then score - 20 else score in
  let score := if skippingOrNoOutput text then score - 15 else score in
  let score := if testNotBacktest text then score - 10 else score in
  score.

(** The category chain of [scoreMemory]: the per-agent branches, then the
    two overrides, the rule tag first and the noise floor last. *)
Definition assignCategory (agent text : jsstring) (tags : list jsstring)
    (score : Z) : jsstring :=
  let category := noise in
  let category :=
    if str_eqb agent (js "trader") then
      if arr_includes tags tag_win then trading_win_pattern
      else if includes text kw_thua || includes text (js "loss")
              || includes text (js "stop loss")
           then trading_loss_lesson
      else if arr_includes tags tag_technical || includes text (js "market")
              || includes text kw_thi_truong
           then market_insight
      else if 50 <? score then market_insight
      else category
    else if str_eqb agent (js "fullstack") then
      if arr_includes tags tag_fix then bug_fix_pattern
      else if arr_includes tags tag_architecture then architecture_decision
      else if 50 <? score then code_pattern
      else category
    else if str_eqb agent (js "scrum") then
      if 50 <? score then process_improvement else category
    else if str_eqb agent (js "assistant") then
      if arr_includes tags tag_rule then system_rule
      else if 55 <? score then project_context
      else category
    else category in
  let category := if arr_includes tags tag_rule then system_rule else category in
  let category := if score <? 30 then noise else category in
  category.

Section WithRuntime.

Context {rt : JsRuntime}.

(** [preFilter]: [true] keeps the memory. *)
Definition preFilter (memory : AgentMemory) : bool :=
  let text := trim (text memory) in
  let lower := toLowerCase text in
  if (List.length text <? 20)%nat then false
  else if includes lower (js "subagent direct hook test") then false
  else if includes lower (js "skipping:") then false
  else if includes lower (js "no output") then false
  else if existsb (matchesWordIgnoreCase text) junkWords then false
  else true.

(** The lower-cased text [scoreMemory] works on. *)
Definition loweredText (memory : AgentMemory) : jsstring :=
  toLowerCase (text memory).

(** [score] and [tags] of [scoreMemory] once all the additions and
    subtractions are done, before clamping. *)
Definition rawScore (memory : AgentMemory) : Z :=
  let text := loweredText memory in
  adjust text (fst (applyGroups text keywordGroups (50, []))).

Definition collectedTags (memory : AgentMemory) : list jsstring :=
  snd (applyGroups (loweredText memory) keywordGroups (50, [])).

Definition scoreMemory (memory : AgentMemory) : ScoredMemory :=
  let text := loweredText memory in
  let score := rawScore memory in
  let tags := collectedTags memory in
  let category := assignCategory (source_agent memory) text tags score in
  {| base := memory;
     qualityScore := Z.min 100 (Z.max 0 score);
     category := category;
     tags := tags;
     distilledText := None;
     scoringMethod := Rule;
     llmReasoning := None |}.

End WithRuntime.

End Scorer.

Import Scorer.

(* ===================================================================== *)
(** ** The chunking loop *)
(* ===================================================================== *)

Module Loop.

(** [for (let i = 0; i < xs.length; i += step) { ... xs.slice(i, i + step) ... }]
    with an integer [step >= 1]: the successive slices the body sees. *)
Equations? chunks {A : Type} (step : positive) (xs : list A) : list (list A)
    by wf (List.length xs) lt :=
  chunks step [] := [];
  chunks step (x :: xs') :=
    firstn (Pos.to_nat step) (x :: xs')
      :: chunks step (skipn (Pos.to_nat step) (x :: xs')).
Proof.
  destruct (Pos.to_nat step) as [|n] eqn:E; [lia|].
  simpl. pose proof (length_skipn n xs'). lia.
Qed.

(** [xs.map((x, idx) => f(x, idx))], the index counted from [i]. *)
Fixpoint mapi_from {A B : Type} (f : A -> nat -> B) (i : nat) (xs : list A)
    : list B :=
  match xs with
  | [] => []
  | x :: xs' => f x i :: mapi_from f (S i) xs'
  end.

Definition mapi {A B : Type} (f : A -> nat -> B) (xs : list A) : list B :=
  mapi_from f 0 xs.

End Loop.

Import Loop.

(* ===================================================================== *)
(** ** The batch LLM scorer ([llm-scorer.service.ts]) *)
(* ===================================================================== *)

Module LlmScorer.

(** The errors the [try] block of [scoreSingleBatch] can raise. *)
Inductive Error : Type :=
| TransportError   (* fetch rejects, status not ok, or no content *)
| JsonSyntaxError  (* JSON.parse throws *)
| NotArrayError    (* 'LLM response is not a JSON array' *)
| ItemTypeError.   (* a property read on a null array element *)

Inductive result (A : Type) : Type :=
| Ok (a : A)
| Thrown (e : Error).

Arguments Ok {A} a.
Arguments Thrown {A} e.

Definition bind {A B : Type} (m : result A) (k : A -> result B) : result B :=
  match m with
  | Ok a => k a
  | Thrown e => Thrown e
  end.

Notation "x <- m ;; k" := (bind m (fun x => k))
  (at level 61, m at next level, right associativity).

(** One element of the array the reply parses to, seen through the
    coercions of [parseScores]: [Number(obj.index)], [Number(obj.score)],
    [String(obj.category ?? 'noise')], [String(obj.reasoning ?? 'LLM scoring')].
    A [null] element has no properties to read. *)
Inductive JsonItem : Type :=
| NullItem
| Item (index score : number) (category reasoning : jsstring).

(** What [JSON.parse(stripCodeFence(rawText).trim())] gives. *)
Inductive ParsedText : Type :=
| Malformed
| NonArray
| ArrayOf (items : list JsonItem).

(** The outcome of the request of one chunk. *)
Inductive LlmReply : Type :=
| CallFails
| Content (parsed : ParsedText).

Record LlmScore : Type := {
  index : number;
  score : number;
  llm_category : jsstring;
  reasoning : jsstring
}.

(** The [.map] of [parseScores]. *)
Fixpoint coerceItems (items : list JsonItem) : result (list LlmScore) :=
  match items with
  | [] => Ok []
  | NullItem :: _ => Thrown ItemTypeError
  | Item i s c r :: items' =>
      rest <- coerceItems items' ;;
      Ok ({| index := i; score := s; llm_category := c; reasoning := r |} :: rest)
  end.

Definition parseScores (parsed : ParsedText) : result (list LlmScore) :=
  match parsed with
  | Malformed => Thrown JsonSyntaxError
  | NonArray => Thrown NotArrayError
  | ArrayOf items =>
      scores <- coerceItems items ;;
      Ok (filter (fun item => isFinite (index item) && isFinite (score item)) scores)
  end.

Definition clampScore (score : number) : Z :=
  match score with
  | Fin q => Z.min 100 (Z.max 0 (round q))
  | _ => 50
  end.

Definition tag_llm_fallback : jsstring := js "llm-fallback".
Definition tag_llm_scored : jsstring := js "llm-scored".

(** [{ ...fallback, tags: [...fallback.tags, 'llm-fallback'] }]. *)
Definition withFallbackTag (fallback : ScoredMemory) : ScoredMemory :=
  {| base := base fallback;
     qualityScore := qualityScore fallback;
     category := category fallback;
     tags := tags fallback ++ [tag_llm_fallback];
     distilledText := distilledText fallback;
     scoringMethod := scoringMethod fallback;
     llmReasoning := llmReasoning fallback |}.

(** The record built from a matched entry. *)
Definition llmScored (memory : AgentMemory) (llmScore : LlmScore) : ScoredMemory :=
  let category :=
    if arr_includes ALLOWED_CATEGORIES (llm_category llmScore)
    then llm_category llmScore else noise in
  {| base := memory;
     qualityScore := clampScore (score llmScore);
     category := category;
     tags := [category; tag_llm_scored];
     distilledText := Some (reasoning llmScore);
     scoringMethod := Llm;
     llmReasoning := Some (reasoning llmScore) |}.

(** *** [stripCodeFence]

    The regular expression is
    [/```(?:json)?\s*([\s\S]*?)\s*```/i], matched without the global flag:
    the leftmost start wins, [(?:json)?] and the first [\s*] take all they
    can, and the group takes as little as it can. *)

Definition fence : jsstring := js "```".

(** The tail [\s*```] of the expression matches at the head of [s].  A
    back-tick is not white space, so the only split to try is the one that
    gives all the leading white space to [\s*]. *)
Definition closesHere (s : jsstring) : bool :=
  startsWith (trimStart s) fence.

(** The lazy group [([\s\S]*?)] from the head of [s]: the shortest prefix
    after which the tail matches; [None] when no prefix does. *)
Fixpoint lazyCapture (s : jsstring) : option jsstring :=
  if closesHere s then Some []
  else match s with
       | [] => None
       | c :: s' => option_map (cons c) (lazyCapture s')
       end.

(** [(?:json)?] under the [i] flag: the four letters in any case. *)
Definition afterLabel (s : jsstring) : jsstring :=
  if matchesWordIgnoreCase (firstn 4 s) (js "json") then skipn 4 s else s.

(** The expression tried at a position where the opening fence stands.
    The label is tried first; when the rest then fails the label is given
    up.  Giving back white space of the first [\s*] cannot turn a failure
    into a match (the tail skips that white space itself), so that
    alternative is not listed. *)
Definition matchAtFence (s : jsstring) : option jsstring :=
  let rest := skipn 3 s in
  match lazyCapture (trimStart (afterLabel rest)) with
  | Some captured => Some captured
  | None => lazyCapture (trimStart rest)
  end.

(** [text.match(...)]: the group of the leftmost match. *)
Fixpoint firstFenced (s : jsstring) : option jsstring :=
  match s with
  | [] => None
  | _ :: s' =>
      if startsWith s fence then
        match matchAtFence s with
        | Some captured => Some captured
        | None => firstFenced s'
        end
      else firstFenced s'
  end.

(** [stripCodeFence]: the group when there is a match and the group is not
    the empty string, the text itself otherwise. *)
Definition stripCodeFence (text : jsstring) : jsstring :=
  match firstFenced text with
  | Some (c :: captured) => c :: captured
  | _ => text
  end.

(** [scores.find((s) => s.index === idx)]. *)
Definition findScore (scores : list LlmScore) (idx : nat) : option LlmScore :=
  find (fun s => strictEq (index s) (ofZ (Z.of_nat idx))) scores.

Section WithRuntime.

Context {rt : JsRuntime}.

Definition fallbackScore (memory : AgentMemory) : ScoredMemory :=
  withFallbackTag (scoreMemory memory).

(** The callback of the [batch.map] of the [try] block. *)
Definition scoreWith (scores : list LlmScore) (memory : AgentMemory) (idx : nat)
    : ScoredMemory :=
  match findScore scores idx with
  | None => fallbackScore memory
  | Some llmScore => llmScored memory llmScore
  end.

(** The [try] block of [scoreSingleBatch]. *)
Definition tryScoreSingleBatch (reply : LlmReply) (batch : list AgentMemory)
    : result (list ScoredMemory) :=
  parsed <- match reply with
            | CallFails => Thrown TransportError
            | Content parsed => Ok parsed
            end ;;
  scores <- parseScores parsed ;;
  Ok (mapi (scoreWith scores) batch).

(** [scoreSingleBatch]: the [catch] clause turns any error of the [try]
    block into the heuristic score of every memory of the batch. *)
Definition scoreSingleBatch (reply : LlmReply) (batch : list AgentMemory)
    : list ScoredMemory :=
  match tryScoreSingleBatch reply batch with
  | Ok scored => scored
  | Thrown _ => List.map fallbackScore batch
  end.

(** The external service: the reply to the [k]-th request of the run, for
    the batch it was asked about. *)
Definition Oracle : Type := nat -> list AgentMemory -> LlmReply.

(** The loop of [scoreBatch] over the slices, the request counter threaded
    through. *)
Fixpoint scoreChunks (llm : Oracle) (k : nat) (batches : list (list AgentMemory))
    : list ScoredMemory * nat :=
  match batches with
  | [] => ([], k)
  | batch :: batches' =>
      let batchResults := scoreSingleBatch (llm k batch) batch in
      let '(results, k') := scoreChunks llm (S k) batches' in
      (batchResults ++ results, k')
  end.

(** The constructor's [Math.max(1, batchSize)]; [None] is [NaN], which
    [Number.parseInt] returns on a non-numeric setting and [Math.max]
    propagates. *)
Definition normalizeBatchSize (batchSize : option Z) : option positive :=
  option_map (fun z => Z.to_pos (Z.max 1 z)) batchSize.

(** [scoreBatch].  With a [NaN] batch size and a non-empty input the loop
    body runs once, on the empty slice [memories.slice(0, NaN)], and
    [i += NaN] ends the loop. *)
Definition scoreBatch (llm : Oracle) (batchSize : option positive) (k : nat)
    (memories : list AgentMemory) : list ScoredMemory * nat :=
  match batchSize with
  | Some step => scoreChunks llm k (chunks step memories)
  | None =>
      match memories with
      | [] => ([], k)
      | _ :: _ => scoreChunks llm k [[]]
      end
  end.

End WithRuntime.

End LlmScorer.

Import LlmScorer.

(* ===================================================================== *)
(** ** Writing to the golden collection ([qdrant.service.ts]) *)
(* ===================================================================== *)

Module Qdrant.

Record Payload : Type := {
  p_text : jsstring;
  p_distilledText : option jsstring;
  p_namespace : jsstring;
  p_source_agent : jsstring;
  p_source_type : jsstring;
  p_userId : jsstring;
  p_timestamp : number;
  p_qualityScore : Z;
  p_category : jsstring;
  p_tags : list jsstring;
  p_scoringMethod : ScoringMethod;
  p_llmReasoning : option jsstring
}.

Record Point : Type := {
  point_id : jsstring;
  point_vector : list number;
  point_payload : Payload
}.

(** [new Array(1024).fill(0)]. *)
Definition zeroVector : list number := repeat (ofZ 0) 1024.

(** The callback of [memories.map] in [upsertGoldenMemories]. *)
Definition toPoint (memory : ScoredMemory) : Point :=
  {| point_id := id (base memory);
     point_vector :=
       match vector (base memory) with
       | Some v => v
       | None => zeroVector
       end;
     point_payload :=
       {| p_text := text (base memory);
          p_distilledText := distilledText memory;
          p_namespace := namespace (base memory);
          p_source_agent := source_agent (base memory);
          p_source_type := source_type (base memory);
          p_userId := userId (base memory);
          p_timestamp := timestamp (base memory);
          p_qualityScore := qualityScore memory;
          p_category := category memory;
          p_tags := tags memory;
          p_scoringMethod := scoringMethod memory;
          p_llmReasoning := llmReasoning memory |} |}.

Definition chunkSize : positive := 128.

(** [upsertGoldenMemories]: the [points] of the successive
    [client.upsert] calls, in order. *)
Definition upsertGoldenMemories (memories : list ScoredMemory)
    : list (list Point) :=
  match memories with
  | [] => []
  | _ :: _ => chunks chunkSize (List.map toPoint memories)
  end.

(** The requests [distill] sends to the store after scoring. *)
Inductive StoreOp : Type :=
| CreateGoldenCollection
| Upsert (points : list Point)
| CreateSnapshot.


End Qdrant.

Import Qdrant.

(* ===================================================================== *)
(** ** Selection ([distiller.service.ts]) *)
(* ===================================================================== *)

Module Distiller.

(** *** The object [selectedByAgent] *)

(** The own string-keyed properties of a plain object, in creation order. *)
Definition JsObject (V : Type) : Type := list (jsstring * V).

Definition isDigit (c : N) : bool := ((48 <=? c) && (c <=? 57))%N.

Definition digitsValue (s : jsstring) : N :=
  fold_left (fun acc c => acc * 10 + (c - 48))%N s 0%N.

(** A property key is an array index when it is the canonical decimal
    spelling of an integer below 2^32 - 1. *)
Definition arrayIndex (key : jsstring) : option N :=
  match key with
  | [] => None
  | c :: rest =>
      if forallb isDigit key
         && (negb (N.eqb c 48) || match rest with [] => true | _ => false end)
         && (List.length key <=? 10)%nat
         && (digitsValue key <? 4294967295)%N
      then Some (digitsValue key) else None
  end.

Fixpoint replaceValue {V : Type} (key : jsstring) (v : V) (o : JsObject V)
    : JsObject V :=
  match o with
  | [] => []
  | (k, w) :: o' =>
      if str_eqb k key then (k, v) :: o' else (k, w) :: replaceValue key v o'
  end.

(** [o[key] = v] on an object created by [{}]: an existing property keeps
    its place, a new one goes last; the key ["__proto__"] reaches the
    accessor of [Object.prototype] and creates no own property. *)
Definition setProperty {V : Type} (key : jsstring) (v : V) (o : JsObject V)
    : JsObject V :=
  if str_eqb key (js "__proto__") then o
  else if existsb (fun kv => str_eqb (fst kv) key) o then replaceValue key v o
  else o ++ [(key, v)].

Fixpoint insertByIndex {V : Type} (e : N * V) (es : list (N * V)) : list (N * V) :=
  match es with
  | [] => [e]
  | e' :: es' =>
      if (fst e <=? fst e')%N then e :: es else e' :: insertByIndex e es'
  end.

Definition indexProperties {V : Type} (o : JsObject V) : list (N * V) :=
  fold_right
    (fun kv acc =>
       match arrayIndex (fst kv) with
       | Some n => insertByIndex (n, snd kv) acc
       | None => acc
       end) [] o.

Definition nameProperties {V : Type} (o : JsObject V) : list V :=
  List.map snd
    (filter (fun kv => match arrayIndex (fst kv) with
                       | Some _ => false
                       | None => true
                       end) o).

(** [Object.values(o)]: the array-index keys in ascending numeric order,
    then the other keys in creation order. *)
Definition objectValues {V : Type} (o : JsObject V) : list V :=
  List.map snd (indexProperties o) ++ nameProperties o.

(** *** Ranking *)

(** [xs.slice(0, n)]: ToIntegerOrInfinity of [n], a negative end counted
    from the end of the array. *)
Definition slice0 {A : Type} (n : number) (xs : list A) : list A :=
  match n with
  | NaN | NegInf => []
  | PosInf => xs
  | Fin q =>
      let k := truncate q in
      if (0 <=? k)%Z then firstn (Z.to_nat k) xs
      else firstn (List.length xs - Z.to_nat (- k)) xs
  end.

(** [xs.sort((a, b) => b.qualityScore - a.qualityScore)]: a stable sort,
    the higher score first.  [insertRanked x ys] puts [x], which came
    before everything in [ys], in front of the first element that does
    not beat it. *)
Fixpoint insertRanked (x : ScoredMemory) (ys : list ScoredMemory)
    : list ScoredMemory :=
  match ys with
  | [] => [x]
  | y :: ys' =>
      if (qualityScore y <=? qualityScore x)%Z then x :: ys
      else y :: insertRanked x ys'
  end.

Fixpoint sortByScore (xs : list ScoredMemory) : list ScoredMemory :=
  match xs with
  | [] => []
  | x :: xs' => insertRanked x (sortByScore xs')
  end.

(** The three [filter]s of [distill]. *)
Definition meetsMinimum (minimum : number) (memory : ScoredMemory) : bool :=
  leb minimum (ofZ (qualityScore memory)).
Definition notNoise (memory : ScoredMemory) : bool :=
  negb (str_eqb (category memory) noise).
Definition eligible (categories : list jsstring) (memory : ScoredMemory) : bool :=
  arr_includes categories (category memory).

(** [top] of [distill]. *)
Definition selectTop (config : DistillConfig) (scored : list ScoredMemory)
    : list ScoredMemory :=
  slice0 (maxOutputPerAgent config)
    (sortByScore
       (filter (eligible (categories config))
          (filter notNoise
             (filter (meetsMinimum (minQualityScore config)) scored)))).

(** *** The run *)

(** What [distill] reads of [process.env]: whether [LLM_SCORING_ENABLED]
    is ['true'], and [Number.parseInt(LLM_BATCH_SIZE || '10', 10)], [None]
    when that is [NaN]. *)
Record Env : Type := {
  llmScoringEnabled : bool;
  llmBatchSize : option Z
}.

(** [getAllMemories(agent)] of the source collection. *)
Definition Store : Type := jsstring -> list AgentMemory.

(** The totals of the report; [byAgent] and the previews play no part in
    selection and are left out. *)
Record DistillReport : Type := {
  totalProcessed : Z;
  totalKept : Z;
  totalDiscarded : Z
}.

Record RunState : Type := {
  selectedByAgent : JsObject (list ScoredMemory);
  processed : Z;
  kept : Z;
  requests : nat
}.

Record DistillOutcome : Type := {
  report : DistillReport;
  flatMemories : list ScoredMemory;
  storeOps : list StoreOp
}.

Section WithRuntime.

Context {rt : JsRuntime}.

Definition llmEnabled (env : Env) (config : DistillConfig) : bool :=
  llmScoringEnabled env && negb (forceRuleOnly config).

(** [scored] of [distill]. *)
Definition scoreAll (env : Env) (config : DistillConfig) (llm : Oracle)
    (k : nat) (filtered : list AgentMemory) : list ScoredMemory * nat :=
  if llmEnabled env config
  then scoreBatch llm (normalizeBatchSize (llmBatchSize env)) k filtered
  else (List.map scoreMemory filtered, k).

(** One turn of the loop over [config.agents]. *)
Definition distillAgent (env : Env) (config : DistillConfig) (store : Store)
    (llm : Oracle) (st : RunState) (agent : jsstring) : RunState :=
  let memories := store agent in
  let filtered := filter preFilter memories in
  let '(scored, k) := scoreAll env config llm (requests st) filtered in
  let top := selectTop config scored in
  {| selectedByAgent := setProperty agent top (selectedByAgent st);
     processed := processed st + Z.of_nat (List.length filtered);
     kept := kept st + Z.of_nat (List.length top);
     requests := k |}.

Definition initialState : RunState :=
  {| selectedByAgent := []; processed := 0; kept := 0; requests := 0 |}.

Definition distill (env : Env) (store : Store) (llm : Oracle)
    (config : DistillConfig) : DistillOutcome :=
  let st := fold_left (distillAgent env config store llm) (agents config)
              initialState in
  let flat := List.concat (objectValues (selectedByAgent st)) in
  {| report :=
       {| totalProcessed := processed st;
          totalKept := kept st;
          totalDiscarded := processed st - kept st |};
     flatMemories := flat;
     storeOps :=
       if dryRun config then []
       else CreateGoldenCollection
              :: List.map Upsert (upsertGoldenMemories flat)
              ++ (if createSnapshot config then [CreateSnapshot] else []) |}.

(** A list is a selection of the run when it is the [top] of some agent's
    scored memories. *)
Definition isSelection (env : Env) (store : Store) (llm : Oracle)
    (config : DistillConfig) (v : list ScoredMemory) : Prop :=
  exists agent k,
    v = selectTop config
          (fst (scoreAll env config llm k (filter preFilter (store agent)))).

(** The configuration with another minimum quality score. *)
Definition withMinimum (minimum : number) (config : DistillConfig)
    : DistillConfig :=
  {| agents := agents config;
     minQualityScore := minimum;
     maxOutputPerAgent := maxOutputPerAgent config;
     categories := categories config;
     dryRun := dryRun config;
     createSnapshot := createSnapshot config;
     forceRuleOnly := forceRuleOnly config |}.



End WithRuntime.

Module Report.

(** *** The per-agent entry of the report *)

(** [truncate] of [distiller.service.ts]; [String.prototype.slice] reads
    its end like [Array.prototype.slice] does. *)
Definition truncate (text : jsstring) (length : Z) : jsstring :=
  if (length <? Z.of_nat (List.length text))%Z
  then slice0 (ofZ (length - 3)) text ++ js "..."
  else text.

Record Preview : Type := {
  preview_text : jsstring;
  preview_score : Z;
  preview_category : jsstring
}.

(** [top.slice(0, 5).map(...)]. *)
Definition topMemories (top : list ScoredMemory) : list Preview :=
  List.map
    (fun memory =>
       {| preview_text := truncate (text (base memory)) 160;
          preview_score := qualityScore memory;
          preview_category := category memory |})
    (slice0 (ofZ 5) top).

Record AgentStats : Type := {
  stats_processed : Z;
  stats_kept : Z;
  stats_topMemories : list Preview
}.

(** The value stored in [report.byAgent[agent]]. *)
Definition agentStats (filtered : list AgentMemory) (top : list ScoredMemory)
    : AgentStats :=
  {| stats_processed := Z.of_nat (List.length filtered);
     stats_kept := Z.of_nat (List.length top);
     stats_topMemories := topMemories top |}.

End Report.

End Distiller.

Import Distiller.

(* ===================================================================== *)
(** ** Concrete records used by the examples *)
(* ===================================================================== *)

Module Examples.

Definition memoryOf (agent body : jsstring) : AgentMemory :=
  {| id := js "7f3c";
     text := body;
     namespace := js "default";
     source_agent := agent;
     source_type := js "auto_capture";
     userId := js "mrc";
     timestamp := ofZ 1700000000000;
     vector := None |}.

(** Twenty-eight characters, lower case: the rule keyword with three
    penalties on top of the one for a text shorter than thirty. *)
Definition shortRuleMemory : AgentMemory :=
  memoryOf (js "assistant") (js "rule test skipping error 500").

(** A rule of an agent outside the four known ones. *)
Definition plainRuleMemory : AgentMemory :=
  memoryOf (js "ops") (js "rule: never average down on a losing position").

(** ["win"] followed by 247 times ["a"]: 250 characters. *)
Definition winMemory : AgentMemory :=
  memoryOf (js "trader") (js "win" ++ repeat 97%N 247).

(** A long note of an agent outside the four known ones, without the rule
    keywords. *)
Definition opsMemory : AgentMemory :=
  memoryOf (js "ops") (js "rotate the api credentials every ninety days").

Definition defaultCategories : list jsstring :=
  [ trading_win_pattern; trading_loss_lesson; market_insight;
    bug_fix_pattern; architecture_decision; code_pattern;
    process_improvement; project_context; system_rule ].

Definition configOf (agentList : list jsstring) (minimum : number)
    (ruleOnly : bool) : DistillConfig :=
  {| agents := agentList;
     minQualityScore := minimum;
     maxOutputPerAgent := ofZ 100;
     categories := defaultCategories;
     dryRun := false;
     createSnapshot := false;
     forceRuleOnly := ruleOnly |}.

(** A source collection holding both rule memories for ["ops"]. *)
Definition twoRuleStore : Store :=
  fun agent =>
    if str_eqb agent (js "ops") then [shortRuleMemory; plainRuleMemory] else [].

(** The environment of a run with LLM scoring switched on, and of one
    without. *)
Definition llmEnv : Env := {| llmScoringEnabled := true; llmBatchSize := Some 10%Z |}.
Definition ruleEnv : Env := {| llmScoringEnabled := false; llmBatchSize := Some 10%Z |}.

(** A source collection holding [opsMemory] for the agent ["ops"]. *)
Definition opsStore : Store :=
  fun agent => if str_eqb agent (js "ops") then [opsMemory] else [].

(** A source collection holding [plainRuleMemory] for the agent ["ops"]. *)
Definition ruleStore : Store :=
  fun agent => if str_eqb agent (js "ops") then [plainRuleMemory] else [].

(** A service that answers every request with
    [[{"index": 0, "score": 90, "category": "market_insight", ...}]]. *)
Definition praisingOracle : Oracle :=
  fun _ _ =>
    Content (ArrayOf [Item (ofZ 0) (ofZ 90) market_insight (js "durable advice")]).

(** Three scored records of one agent, in arrival order, with the scores
    65, 90 and 65. *)
Definition scoredAs (tagText : string) (q : Z) : ScoredMemory :=
  {| base := memoryOf (js "trader") (js tagText);
     qualityScore := q;
     category := market_insight;
     tags := [];
     distilledText := None;
     scoringMethod := Rule;
     llmReasoning := None |}.

Definition threeScored : list ScoredMemory :=
  [ scoredAs "first" 65; scoredAs "second" 90; scoredAs "third" 65 ].

(** The reply [[{"index": 0, "score": 85.5, "category": "market_insight", ...}]]. *)
Definition fractionalReply : LlmReply :=
  Content (ArrayOf [Item (ofZ 0) (Fin (171 # 2)) market_insight (js "solid")]).

(** The reply [[{"index": 0, "score": 72, "category": "insight", ...}]],
    whose category is not one of the ten. *)
Definition strangeCategoryReply : LlmReply :=
  Content (ArrayOf [Item (ofZ 0) (ofZ 72) (js "insight") (js "fine")]).

(** A score "clamped to [0,100], a non-finite one treated as 50", read
    word for word: the number itself, cut to the range. *)
Definition clampedAsWorded (score : number) : Q :=
  match score with
  | Fin q => Qmin 100 (Qmax 0 q)
  | _ => 50
  end.

End Examples.

(* ===================================================================== *)
(** ** Facts about strings and arrays *)
(* ===================================================================== *)

Lemma str_eqb_eq (a b : jsstring) : str_eqb a b = true <-> a = b.
Proof.
  revert b. induction a as [|x a IH]; intros [|y b]; simpl; split;
    try discriminate; try reflexivity.
  - intros H. apply andb_true_iff in H as [Hx Ha].
    apply N.eqb_eq in Hx. apply IH in Ha. congruence.
  - intros H. injection H as -> ->.
    rewrite N.eqb_refl. simpl. now apply IH.
Qed.

Lemma str_eqb_neq (a b : jsstring) : str_eqb a b = false <-> a <> b.
Proof.
  rewrite <- str_eqb_eq. destruct (str_eqb a b); split; congruence.
Qed.

Lemma arr_includes_In (arr : list jsstring) (s : jsstring) :
  arr_includes arr s = true <-> In s arr.
Proof.
  unfold arr_includes. rewrite existsb_exists. split.
  - intros (x & Hin & Heq). apply str_eqb_eq in Heq. now subst.
  - intros Hin. exists s. split; [assumption | now apply str_eqb_eq].
Qed.

Lemma trimStart_length (s : jsstring) :
  (List.length (trimStart s) <= List.length s)%nat.
Proof.
  induction s as [|c s IH]; simpl; [lia|].
  destruct (isWhiteSpace c); simpl; lia.
Qed.

Lemma trim_length (s : jsstring) :
  (List.length (trim s) <= List.length s)%nat.
Proof.
  unfold trim, trimEnd. rewrite length_rev.
  pose proof (trimStart_length (rev (trimStart s))) as H1.
  rewrite length_rev in H1.
  pose proof (trimStart_length s). lia.
Qed.

Lemma matchesWordIgnoreCase_length (s word : jsstring) :
  matchesWordIgnoreCase s word = true -> List.length s = List.length word.
Proof.
  revert word. induction s as [|x s IH]; intros [|y word]; simpl;
    try discriminate; try reflexivity.
  intros H. apply andb_true_iff in H as [_ H]. f_equal. now apply IH.
Qed.

Lemma startsWith_iff (hay needle : jsstring) :
  startsWith hay needle = true <-> exists post, hay = needle ++ post.
Proof.
  revert hay. induction needle as [|x needle IH]; intros [|y hay]; simpl.
  - split; [now exists [] | reflexivity].
  - split; [now exists (y :: hay) | reflexivity].
  - split; [discriminate | intros [post H]; discriminate].
  - rewrite andb_true_iff, N.eqb_eq, IH. split.
    + intros [-> [post ->]]. now exists post.
    + intros [post [= -> ->]]. split; [reflexivity | now exists post].
Qed.

Lemma includes_iff (hay needle : jsstring) :
  includes hay needle = true <-> exists pre post, hay = pre ++ needle ++ post.
Proof.
  induction hay as [|y hay IH]; cbn [includes]; rewrite orb_true_iff, startsWith_iff.
  - split.
    + intros [[post H] | H]; [|discriminate]. exists [], post. exact H.
    + intros (pre & post & H). left.
      destruct pre; [now exists post|discriminate].
  - rewrite IH. split.
    + intros [[post H] | (pre & post & H)].
      * exists [], post. exact H.
      * exists (y :: pre), post. simpl. now rewrite H.
    + intros (pre & post & H). destruct pre as [|p pre].
      * left. now exists post.
      * right. injection H as -> ->. now exists pre, post.
Qed.

Lemma trimStart_app_solid (pre rest : jsstring) (x : N) :
  isWhiteSpace x = false ->
  trimStart (pre ++ x :: rest) = trimStart pre ++ x :: rest.
Proof.
  intros Hx. induction pre as [|c pre IH]; simpl.
  - now rewrite Hx.
  - destruct (isWhiteSpace c); [exact IH | reflexivity].
Qed.

Lemma trimStart_suffix (s : jsstring) : exists ws, s = ws ++ trimStart s.
Proof.
  induction s as [|c s [ws IH]]; simpl.
  - now exists [].
  - destruct (isWhiteSpace c).
    + exists (c :: ws). simpl. now rewrite <- IH.
    + now exists [].
Qed.

Lemma trim_inside (s : jsstring) : exists before after, s = before ++ trim s ++ after.
Proof.
  unfold trim, trimEnd.
  destruct (trimStart_suffix s) as [ws1 H1].
  destruct (trimStart_suffix (rev (trimStart s))) as [ws2 H2].
  exists ws1, (rev ws2).
  rewrite <- rev_app_distr, <- H2, rev_involutive. exact H1.
Qed.

Lemma solidEnds_shape (w : jsstring) :
  solidEnds w = true ->
  exists a w1 w2 z,
    w = a :: w1 /\ w = w2 ++ [z]
    /\ isWhiteSpace a = false /\ isWhiteSpace z = false.
Proof.
  unfold solidEnds. destruct w as [|a w1]; [discriminate|].
  destruct (rev (a :: w1)) as [|z r] eqn:E; [discriminate|].
  intros H. apply andb_true_iff in H as [Ha Hz].
  apply negb_true_iff in Ha, Hz.
  exists a, w1, (rev r), z. repeat split; try assumption.
  rewrite <- (rev_involutive (a :: w1)), E. reflexivity.
Qed.

Lemma trim_keeps_occurrence (s w : jsstring) :
  solidEnds w = true ->
  includes (trim s) w = includes s w.
Proof.
  intros Hw. apply eq_true_iff_eq. rewrite !includes_iff. split.
  - intros (pre & post & H).
    destruct (trim_inside s) as (b & a & Hs).
    exists (b ++ pre), (post ++ a). rewrite Hs, H.
    now rewrite <- !app_assoc.
  - intros (pre & post & ->).
    destruct (solidEnds_shape _ Hw) as (a & w1 & w2 & z & E1 & E2 & Ha & Hz).
    unfold trim, trimEnd.
    assert (Hstart : trimStart (pre ++ w ++ post) = trimStart pre ++ w ++ post).
    { rewrite E1. cbn [app]. now apply trimStart_app_solid. }
    rewrite Hstart.
    assert (Hend : trimStart (rev (trimStart pre ++ w ++ post))
                   = trimStart (rev post) ++ rev w ++ rev (trimStart pre)).
    { rewrite !rev_app_distr, <- app_assoc.
      rewrite E2 at 1 2. rewrite rev_app_distr. cbn [rev app].
      now apply trimStart_app_solid. }
    rewrite Hend, !rev_app_distr, !rev_involutive, <- app_assoc.
    eauto.
Qed.

Lemma printable_not_white (c : N) :
  (33 <= c <= 126)%N -> isWhiteSpace c = false.
Proof.
  intros H. unfold isWhiteSpace.
  replace (c <=? 13)%N with false by (symmetry; apply N.leb_gt; lia).
  replace (c =? 32)%N with false by (symmetry; apply N.eqb_neq; lia).
  replace (c =? 160)%N with false by (symmetry; apply N.eqb_neq; lia).
  replace (c =? 5760)%N with false by (symmetry; apply N.eqb_neq; lia).
  replace (8192 <=? c)%N with false by (symmetry; apply N.leb_gt; lia).
  replace (c =? 8232)%N with false by (symmetry; apply N.eqb_neq; lia).
  replace (c =? 8233)%N with false by (symmetry; apply N.eqb_neq; lia).
  replace (c =? 8239)%N with false by (symmetry; apply N.eqb_neq; lia).
  replace (c =? 8287)%N with false by (symmetry; apply N.eqb_neq; lia).
  replace (c =? 12288)%N with false by (symmetry; apply N.eqb_neq; lia).
  replace (c =? 65279)%N with false by (symmetry; apply N.eqb_neq; lia).
  now rewrite andb_false_r.
Qed.

Lemma asciiLowerChar_white (c : N) :
  isWhiteSpace (asciiLowerChar c) = isWhiteSpace c.
Proof.
  unfold asciiLowerChar.
  destruct ((65 <=? c) && (c <=? 90))%N eqn:E; [|reflexivity].
  apply andb_true_iff in E as [E1 E2].
  apply N.leb_le in E1, E2.
  rewrite !printable_not_white; [reflexivity | lia | lia].
Qed.

Lemma asciiLowerChar_fixed (w : jsstring) :
  lowerAscii w = true -> List.map asciiLowerChar w = w.
Proof.
  unfold lowerAscii. induction w as [|c w IH]; simpl; [reflexivity|].
  intros H. apply andb_true_iff in H as [Hc Hw].
  apply andb_true_iff in Hc as [_ Hc]. apply negb_true_iff in Hc.
  unfold asciiLowerChar at 1. rewrite Hc. f_equal. now apply IH.
Qed.

Lemma trimStart_asciiLower (s : jsstring) :
  trimStart (List.map asciiLowerChar s) = List.map asciiLowerChar (trimStart s).
Proof.
  induction s as [|c s IH]; simpl; [reflexivity|].
  rewrite asciiLowerChar_white. destruct (isWhiteSpace c); [exact IH | reflexivity].
Qed.

Lemma trim_asciiLower (s : jsstring) :
  trim (List.map asciiLowerChar s) = List.map asciiLowerChar (trim s).
Proof.
  unfold trim, trimEnd.
  now rewrite trimStart_asciiLower, <- map_rev, trimStart_asciiLower, map_rev.
Qed.

(** The ASCII instance obeys the three laws. *)
Lemma asciiRuntime_laws : LowerCaseLaws asciiRuntime.
Proof.
  split; cbn [toLowerCase asciiRuntime]; unfold asciiToLowerCase.
  - intros s w Hw H. apply includes_iff in H as (pre & post & ->).
    apply includes_iff.
    exists (List.map asciiLowerChar pre), (List.map asciiLowerChar post).
    now rewrite !map_app, (asciiLowerChar_fixed _ Hw).
  - intros s. rewrite length_map. lia.
  - intros s. symmetry. apply trim_asciiLower.
Qed.

(* ===================================================================== *)
(** ** Facts about the heuristic scorer *)
(* ===================================================================== *)

Lemma applyGroups_tags (text : jsstring) (gs : list KeywordGroup)
    (st : Z * list jsstring) :
  snd (applyGroups text gs st)
  = snd st ++ List.map tag (filter (groupMatches text) gs).
Proof.
  revert st. induction gs as [|g gs IH]; intros st; simpl.
  - now rewrite app_nil_r.
  - rewrite IH. destruct (groupMatches text g); simpl; [|reflexivity].
    now rewrite <- app_assoc.
Qed.

(** The tag of a group is collected exactly when the group matches: the
    seven tags are pairwise different. *)
Lemma collected_tag_iff (text : jsstring) (g : KeywordGroup) :
  In g keywordGroups ->
  (In (tag g) (snd (applyGroups text keywordGroups (50%Z, [])))
   <-> groupMatches text g = true).
Proof.
  intros Hg. rewrite applyGroups_tags. simpl snd. rewrite app_nil_l.
  rewrite in_map_iff. split.
  - intros (g' & Htag & Hin). apply filter_In in Hin as [Hin Hm].
    assert (g' = g) as <-; [|assumption].
    unfold keywordGroups in Hg, Hin. simpl in Hg, Hin.
    repeat (destruct Hg as [<- | Hg]);
      repeat (destruct Hin as [<- | Hin]);
      try reflexivity; try contradiction;
      vm_compute in Htag; discriminate Htag.
  - intros Hm. exists g. split; [reflexivity|].
    apply filter_In. now split.
Qed.

Lemma ruleGroup_listed : In ruleGroup keywordGroups.
Proof. unfold keywordGroups. simpl. tauto. Qed.

Lemma winGroup_listed : In winGroup keywordGroups.
Proof. unfold keywordGroups. simpl. tauto. Qed.

Section ScorerFacts.

Context {rt : JsRuntime}.

Lemma rule_tag_iff (m : AgentMemory) :
  In tag_rule (collectedTags m) <-> groupMatches (loweredText m) ruleGroup = true.
Proof.
  unfold collectedTags.
  exact (collected_tag_iff (loweredText m) ruleGroup_listed).
Qed.

Lemma win_tag_iff (m : AgentMemory) :
  In tag_win (collectedTags m) <-> groupMatches (loweredText m) winGroup = true.
Proof.
  unfold collectedTags.
  exact (collected_tag_iff (loweredText m) winGroup_listed).
Qed.

End ScorerFacts.

(** Every exit of the category chain is one of the ten literals. *)
Lemma assignCategory_allowed (agent text : jsstring) (tags : list jsstring)
    (score : Z) :
  In (assignCategory agent text tags score) ALLOWED_CATEGORIES.
Proof.
  unfold assignCategory, ALLOWED_CATEGORIES.
  repeat match goal with
         | |- context [if ?b then _ else _] => destruct b
         end;
    cbn [In]; auto 12.
Qed.

(** The last override of the chain. *)
Lemma assignCategory_floor (agent text : jsstring) (tags : list jsstring)
    (score : Z) :
  (score < 30)%Z -> assignCategory agent text tags score = noise.
Proof.
  intros H. unfold assignCategory.
  apply Z.ltb_lt in H. now rewrite H.
Qed.

(** The override before it, when the floor does not apply. *)
Lemma assignCategory_rule (agent text : jsstring) (tags : list jsstring)
    (score : Z) :
  In tag_rule tags -> (30 <= score)%Z ->
  assignCategory agent text tags score = system_rule.
Proof.
  intros Hr Hs. unfold assignCategory.
  apply arr_includes_In in Hr. rewrite Hr.
  apply Z.ltb_ge in Hs. now rewrite Hs.
Qed.

(** Without the rule tag, an agent outside the four branches keeps the
    initial value. *)
Lemma assignCategory_unknown_agent (agent text : jsstring)
    (tags : list jsstring) (score : Z) :
  agent <> js "trader" -> agent <> js "fullstack" ->
  agent <> js "scrum" -> agent <> js "assistant" ->
  ~ In tag_rule tags ->
  assignCategory agent text tags score = noise.
Proof.
  intros H1 H2 H3 H4 Hr. unfold assignCategory.
  apply str_eqb_neq in H1, H2, H3, H4. rewrite H1, H2, H3, H4.
  destruct (arr_includes tags tag_rule) eqn:E.
  - exfalso. apply Hr. now apply arr_includes_In.
  - now destruct (score <? 30)%Z.
Qed.

(* ===================================================================== *)
(** ** Facts about the chunking loop *)
(* ===================================================================== *)

Lemma concat_chunks {A : Type} (step : positive) (xs : list A) :
  List.concat (chunks step xs) = xs.
Proof.
  funelim (chunks step xs); simp chunks.
  - reflexivity.
  - cbn [List.concat]. rewrite H. apply firstn_skipn.
Qed.

Lemma chunks_bounds {A : Type} (step : positive) (xs : list A) :
  Forall (fun c => c <> [] /\ (List.length c <= Pos.to_nat step)%nat)
         (chunks step xs).
Proof.
  funelim (chunks step xs); simp chunks.
  - constructor.
  - constructor; [|exact H]. split.
    + destruct (Pos.to_nat step) eqn:E; [lia | discriminate].
    + apply firstn_le_length.
Qed.

Lemma mapi_from_nth {A B : Type} (f : A -> nat -> B) (xs : list A) :
  forall i n,
    nth_error (mapi_from f i xs) n
    = option_map (fun x => f x (i + n)%nat) (nth_error xs n).
Proof.
  induction xs as [|x xs IH]; intros i n.
  - now destruct n.
  - destruct n as [|n]; simpl.
    + now rewrite Nat.add_0_r.
    + rewrite IH. now rewrite Nat.add_succ_r.
Qed.

Lemma mapi_nth {A B : Type} (f : A -> nat -> B) (xs : list A) (n : nat) :
  nth_error (mapi f xs) n = option_map (fun x => f x n) (nth_error xs n).
Proof. unfold mapi. now rewrite mapi_from_nth. Qed.

Lemma mapi_from_In {A B : Type} (f : A -> nat -> B) (xs : list A) :
  forall i y, In y (mapi_from f i xs) -> exists x n, In x xs /\ y = f x n.
Proof.
  induction xs as [|x xs IH]; intros i y; simpl; [contradiction|].
  intros [<- | Hin].
  - exists x, i. auto.
  - destruct (IH _ _ Hin) as (x' & n & Hx & ->). exists x', n. auto.
Qed.

Lemma mapi_from_length {A B : Type} (f : A -> nat -> B) (xs : list A) :
  forall i, List.length (mapi_from f i xs) = List.length xs.
Proof.
  induction xs as [|x xs IH]; intros i; simpl; [reflexivity|].
  now rewrite IH.
Qed.

(* ===================================================================== *)
(** ** Facts about the batch scorer *)
(* ===================================================================== *)

Lemma coerceItems_shape (items : list JsonItem) (scores : list LlmScore) :
  coerceItems items = Ok scores ->
  List.length scores = List.length items.
Proof.
  revert scores. induction items as [|[|i s c r] items IH]; intros scores; simpl.
  - intros [= <-]. reflexivity.
  - discriminate.
  - destruct (coerceItems items) as [rest|e]; simpl; [|discriminate].
    intros [= <-]. simpl. f_equal. now apply IH.
Qed.

(** What [parseScores] returns holds finite indices and scores only. *)
Lemma parseScores_finite (parsed : ParsedText) (scores : list LlmScore) :
  parseScores parsed = Ok scores ->
  Forall (fun s => isFinite (index s) = true /\ isFinite (score s) = true) scores.
Proof.
  destruct parsed as [| |items]; simpl; try discriminate.
  destruct (coerceItems items) as [all|e]; simpl; [|discriminate].
  intros [= <-]. apply Forall_forall. intros s Hs.
  apply filter_In in Hs as [_ Hs]. now apply andb_true_iff in Hs.
Qed.

Lemma findScore_In (scores : list LlmScore) (idx : nat) (s : LlmScore) :
  findScore scores idx = Some s ->
  In s scores /\ strictEq (index s) (ofZ (Z.of_nat idx)) = true.
Proof. unfold findScore. apply find_some. Qed.

Lemma clampScore_range (x : number) : (0 <= clampScore x <= 100)%Z.
Proof. destruct x; simpl; lia. Qed.

Lemma llmScored_category_allowed (m : AgentMemory) (s : LlmScore) :
  In (category (llmScored m s)) ALLOWED_CATEGORIES.
Proof.
  unfold llmScored. cbn [category].
  destruct (arr_includes ALLOWED_CATEGORIES (llm_category s)) eqn:E.
  - now apply arr_includes_In.
  - unfold ALLOWED_CATEGORIES. cbn [In]. auto 12.
Qed.

Section BatchFacts.

Context {rt : JsRuntime}.

(** Each record a chunk returns is the fallback of one of its memories or
    the record built from a matched entry for one of them. *)
Lemma scoreSingleBatch_In (reply : LlmReply) (batch : list AgentMemory)
    (r : ScoredMemory) :
  In r (scoreSingleBatch reply batch) ->
  exists m, In m batch /\ (r = fallbackScore m \/ exists s, r = llmScored m s).
Proof.
  unfold scoreSingleBatch.
  destruct (tryScoreSingleBatch reply batch) as [scored|e] eqn:E.
  - unfold tryScoreSingleBatch in E.
    destruct reply as [|parsed]; simpl in E; [discriminate|].
    destruct (parseScores parsed) as [scores|e]; simpl in E; [|discriminate].
    injection E as <-. intros Hin.
    apply mapi_from_In in Hin as (m & n & Hm & ->).
    exists m. split; [assumption|]. unfold scoreWith.
    destruct (findScore scores n) as [s|]; [right; now exists s | now left].
  - intros Hin. apply in_map_iff in Hin as (m & <- & Hm).
    exists m. auto.
Qed.

Lemma scoreSingleBatch_length (reply : LlmReply) (batch : list AgentMemory) :
  List.length (scoreSingleBatch reply batch) = List.length batch.
Proof.
  unfold scoreSingleBatch.
  destruct (tryScoreSingleBatch reply batch) as [scored|e] eqn:E.
  - unfold tryScoreSingleBatch in E.
    destruct reply as [|parsed]; simpl in E; [discriminate|].
    destruct (parseScores parsed) as [scores|e]; simpl in E; [|discriminate].
    injection E as <-. apply mapi_from_length.
  - apply length_map.
Qed.

Lemma scoreChunks_In (llm : Oracle) (batches : list (list AgentMemory)) :
  forall k r,
    In r (fst (scoreChunks llm k batches)) ->
    exists batch m,
      In batch batches /\ In m batch
      /\ (r = fallbackScore m \/ exists s, r = llmScored m s).
Proof.
  induction batches as [|batch batches IH]; intros k r; simpl; [contradiction|].
  destruct (scoreChunks llm (S k) batches) as [results k'] eqn:E. simpl.
  intros Hin. apply in_app_or in Hin as [Hin | Hin].
  - apply scoreSingleBatch_In in Hin as (m & Hm & Hr).
    exists batch, m. auto.
  - specialize (IH (S k) r). rewrite E in IH.
    destruct (IH Hin) as (b & m & Hb & Hm & Hr). exists b, m. auto.
Qed.

Lemma scoreBatch_In (llm : Oracle) (batchSize : option positive) (k : nat)
    (memories : list AgentMemory) (r : ScoredMemory) :
  In r (fst (scoreBatch llm batchSize k memories)) ->
  exists m, In m memories
            /\ (r = fallbackScore m \/ exists s, r = llmScored m s).
Proof.
  unfold scoreBatch. destruct batchSize as [step|].
  - intros Hin. apply scoreChunks_In in Hin as (b & m & Hb & Hm & Hr).
    exists m. split; [|assumption].
    rewrite <- (concat_chunks step memories). apply in_concat. eauto.
  - destruct memories as [|m0 ms]; [contradiction|].
    intros Hin. apply scoreChunks_In in Hin as (b & m & Hb & Hm & _).
    destruct Hb as [<- | []]. contradiction.
Qed.

End BatchFacts.

(* ===================================================================== *)
(** ** Facts about ranking and truncation *)
(* ===================================================================== *)

Lemma insertRanked_In (x y : ScoredMemory) (ys : list ScoredMemory) :
  In y (insertRanked x ys) <-> y = x \/ In y ys.
Proof.
  induction ys as [|z ys IH]; simpl.
  - intuition congruence.
  - destruct (qualityScore z <=? qualityScore x)%Z; simpl.
    + intuition congruence.
    + rewrite IH. intuition congruence.
Qed.

Lemma sortByScore_In (y : ScoredMemory) (xs : list ScoredMemory) :
  In y (sortByScore xs) <-> In y xs.
Proof.
  induction xs as [|x xs IH]; simpl; [tauto|].
  rewrite insertRanked_In, IH. intuition congruence.
Qed.

Lemma insertRanked_length (x : ScoredMemory) (ys : list ScoredMemory) :
  List.length (insertRanked x ys) = S (List.length ys).
Proof.
  induction ys as [|z ys IH]; simpl; [reflexivity|].
  destruct (qualityScore z <=? qualityScore x)%Z; simpl; congruence.
Qed.

(** The model of [sort] does sort: no score is followed by a higher one. *)
Lemma insertRanked_sorted (x : ScoredMemory) (ys : list ScoredMemory) :
  StronglySorted (fun a b => (qualityScore b <= qualityScore a)%Z) ys ->
  StronglySorted (fun a b => (qualityScore b <= qualityScore a)%Z)
                 (insertRanked x ys).
Proof.
  induction 1 as [|z ys Hs IH Hz]; simpl.
  - constructor; constructor.
  - destruct (qualityScore z <=? qualityScore x)%Z eqn:E.
    + apply Z.leb_le in E. constructor.
      * now constructor.
      * constructor; [assumption|].
        eapply Forall_impl; [|exact Hz]. simpl. intros a Ha. lia.
    + apply Z.leb_gt in E. constructor; [assumption|].
      apply Forall_forall. intros a Ha.
      apply insertRanked_In in Ha as [-> | Ha]; [lia|].
      rewrite Forall_forall in Hz. now apply Hz.
Qed.

Lemma sortByScore_sorted (xs : list ScoredMemory) :
  StronglySorted (fun a b => (qualityScore b <= qualityScore a)%Z)
                 (sortByScore xs).
Proof.
  induction xs as [|x xs IH]; simpl; [constructor|].
  now apply insertRanked_sorted.
Qed.

(** Inserting above a block that does not beat [x] leaves the block alone. *)
Lemma insertRanked_app_above (x : ScoredMemory) (hi lo : list ScoredMemory) :
  (forall y, In y lo -> (qualityScore y <= qualityScore x)%Z) ->
  insertRanked x (hi ++ lo) = insertRanked x hi ++ lo.
Proof.
  intros Hlo. induction hi as [|z hi IH]; simpl.
  - destruct lo as [|y lo]; simpl; [reflexivity|].
    assert ((qualityScore y <=? qualityScore x)%Z = true) as ->
      by (apply Z.leb_le, Hlo; now left).
    reflexivity.
  - destruct (qualityScore z <=? qualityScore x)%Z; simpl; [reflexivity|].
    now rewrite IH.
Qed.

(** Inserting below a block that beats [x] throughout skips the block. *)
Lemma insertRanked_app_below (x : ScoredMemory) (hi lo : list ScoredMemory) :
  (forall y, In y hi -> (qualityScore x < qualityScore y)%Z) ->
  insertRanked x (hi ++ lo) = hi ++ insertRanked x lo.
Proof.
  intros Hhi. induction hi as [|z hi IH]; simpl; [reflexivity|].
  assert ((qualityScore z <=? qualityScore x)%Z = false) as ->
    by (apply Z.leb_gt, Hhi; now left).
  rewrite IH; [reflexivity|]. intros y Hy. apply Hhi. now right.
Qed.

(** A predicate that separates the scores splits the sorted list in two
    sorted blocks. *)
Lemma sortByScore_split (above : ScoredMemory -> bool) (xs : list ScoredMemory) :
  (forall x y, In x xs -> In y xs -> above x = true -> above y = false ->
               (qualityScore y < qualityScore x)%Z) ->
  sortByScore xs
  = sortByScore (filter above xs)
      ++ sortByScore (filter (fun x => negb (above x)) xs).
Proof.
  induction xs as [|x xs IH]; intros Hsep; [reflexivity|].
  assert (IH' := IH (fun a b Ha Hb => Hsep a b (or_intror Ha) (or_intror Hb))).
  cbn [sortByScore filter]. rewrite IH'.
  destruct (above x) eqn:E; cbn [negb sortByScore].
  - apply insertRanked_app_above. intros y Hy.
    apply sortByScore_In, filter_In in Hy as [Hy Hb].
    apply negb_true_iff in Hb.
    assert (qualityScore y < qualityScore x)%Z; [|lia].
    apply Hsep; simpl; auto.
  - apply insertRanked_app_below. intros y Hy.
    apply sortByScore_In, filter_In in Hy as [Hy Hb].
    apply Hsep; simpl; auto.
Qed.

Lemma firstn_prefix {A : Type} (xs : list A) (n m : nat) :
  (n <= m)%nat -> exists rest, firstn m xs = firstn n xs ++ rest.
Proof.
  revert n m. induction xs as [|x xs IH]; intros n m Hnm.
  - exists []. now rewrite !firstn_nil.
  - destruct n as [|n].
    + exists (firstn m (x :: xs)). reflexivity.
    + destruct m as [|m]; [lia|].
      destruct (IH n m ltac:(lia)) as [rest Hrest].
      exists rest. simpl. now rewrite Hrest.
Qed.

Lemma In_firstn {A : Type} (n : nat) (xs : list A) (x : A) :
  In x (firstn n xs) -> In x xs.
Proof.
  revert n. induction xs as [|y xs IH]; intros [|n]; simpl; try tauto.
  intros [-> | H]; [now left | right; eauto].
Qed.

Lemma slice0_In {A : Type} (n : number) (xs : list A) (x : A) :
  In x (slice0 n xs) -> In x xs.
Proof.
  unfold slice0. destruct n as [| | |q]; try contradiction; [tauto|].
  destruct (0 <=? truncate q)%Z; apply In_firstn.
Qed.

(** Cutting a longer list at the same end keeps what the cut of its front
    part kept. *)
Lemma slice0_app {A : Type} (n : number) (front back : list A) :
  exists rest, slice0 n (front ++ back) = slice0 n front ++ rest.
Proof.
  unfold slice0. destruct n as [| | |q].
  - now exists [].
  - now exists back.
  - now exists [].
  - destruct (0 <=? truncate q)%Z.
    + rewrite firstn_app. eauto.
    + rewrite firstn_app, length_app.
      destruct (firstn_prefix front
                  (n := List.length front - Z.to_nat (- truncate q))
                  (m := List.length front + List.length back
                        - Z.to_nat (- truncate q)) ltac:(lia)) as [r Hr].
      rewrite Hr, <- app_assoc. eauto.
Qed.

Lemma selectTop_In (config : DistillConfig) (scored : list ScoredMemory)
    (r : ScoredMemory) :
  In r (selectTop config scored) ->
  In r scored
  /\ meetsMinimum (minQualityScore config) r = true
  /\ notNoise r = true
  /\ eligible (categories config) r = true.
Proof.
  unfold selectTop. intros H.
  apply slice0_In in H. rewrite sortByScore_In in H.
  apply filter_In in H as [H He].
  apply filter_In in H as [H Hn].
  apply filter_In in H as [H Hm]. auto.
Qed.

(** A threshold separates the integer scores it lets through from the ones
    it stops. *)
Lemma meetsMinimum_separates (t : number) (x y : ScoredMemory) :
  meetsMinimum t x = true -> meetsMinimum t y = false ->
  (qualityScore y < qualityScore x)%Z.
Proof.
  unfold meetsMinimum, leb, ofZ. destruct t as [| | |q]; try discriminate.
  intros Hx Hy. apply Qle_bool_iff in Hx.
  destruct (Z_lt_le_dec (qualityScore y) (qualityScore x)) as [Hlt|Hge];
    [assumption|].
  exfalso. assert (Qle_bool q (inject_Z (qualityScore y)) = true) as E.
  { apply Qle_bool_iff. eapply Qle_trans; [exact Hx|].
    rewrite <- Zle_Qle. exact Hge. }
  congruence.
Qed.

Lemma leb_trans_ofZ (t1 t2 : number) (z : Z) :
  leb t1 t2 = true -> leb t2 (ofZ z) = true -> leb t1 (ofZ z) = true.
Proof.
  unfold leb, ofZ. destruct t1 as [| | |a], t2 as [| | |b];
    try discriminate; try reflexivity.
  intros H1 H2. apply Qle_bool_iff in H1, H2. apply Qle_bool_iff.
  eapply Qle_trans; eassumption.
Qed.

(* ===================================================================== *)
(** ** Facts about [selectedByAgent] and the run *)
(* ===================================================================== *)

Lemma replaceValue_In {V : Type} (key k : jsstring) (v w : V) (o : JsObject V) :
  In (k, w) (replaceValue key v o) -> w = v \/ In (k, w) o.
Proof.
  induction o as [|[k0 w0] o IH]; simpl; [tauto|].
  destruct (str_eqb k0 key); simpl.
  - intros [[= <- <-] | H]; auto.
  - intros [H | H]; [auto | destruct (IH H); auto].
Qed.

Lemma setProperty_In {V : Type} (key k : jsstring) (v w : V) (o : JsObject V) :
  In (k, w) (setProperty key v o) -> w = v \/ In (k, w) o.
Proof.
  unfold setProperty. destruct (str_eqb key (js "__proto__")); [auto|].
  destruct (existsb _ o).
  - apply replaceValue_In.
  - intros H. apply in_app_or in H as [H | [[= <- <-] | []]]; auto.
Qed.

Lemma insertByIndex_In {V : Type} (e e' : N * V) (es : list (N * V)) :
  In e' (insertByIndex e es) -> e' = e \/ In e' es.
Proof.
  induction es as [|e0 es IH]; simpl.
  - intros [<- | []]. now left.
  - destruct (fst e <=? fst e0)%N; simpl.
    + intros [<- | H]; auto.
    + intros [<- | H]; [auto | destruct (IH H); auto].
Qed.

Lemma indexProperties_In {V : Type} (o : JsObject V) (n : N) (v : V) :
  In (n, v) (indexProperties o) -> exists k, In (k, v) o.
Proof.
  induction o as [|[k0 w0] o IH]; simpl; [contradiction|].
  destruct (arrayIndex k0) as [i|].
  - intros H. apply insertByIndex_In in H as [[= -> ->] | H].
    + exists k0. now left.
    + destruct (IH H) as [k Hk]. exists k. now right.
  - intros H. destruct (IH H) as [k Hk]. exists k. now right.
Qed.

Lemma objectValues_In {V : Type} (o : JsObject V) (v : V) :
  In v (objectValues o) -> exists k, In (k, v) o.
Proof.
  unfold objectValues, nameProperties. intros H.
  apply in_app_or in H as [H | H]; apply in_map_iff in H as ([k w] & <- & H).
  - now apply indexProperties_In in H.
  - apply filter_In in H as [H _]. now exists k.
Qed.

Section RunFacts.

Context {rt : JsRuntime}.

Variable env : Env.
Variable store : Store.
Variable llm : Oracle.
Variable config : DistillConfig.

Lemma distillAgent_selection (st : RunState) (agent : jsstring) :
  (forall k v, In (k, v) (selectedByAgent st) ->
               isSelection env store llm config v) ->
  forall k v,
    In (k, v) (selectedByAgent (distillAgent env config store llm st agent)) ->
    isSelection env store llm config v.
Proof.
  intros Hst k v. unfold distillAgent.
  destruct (scoreAll env config llm (requests st) (filter preFilter (store agent)))
    as [scored k'] eqn:E.
  cbn [selectedByAgent]. intros H.
  apply setProperty_In in H as [-> | H]; [|eauto].
  exists agent, (requests st). now rewrite E.
Qed.

Lemma fold_distillAgent_selection (agentList : list jsstring) :
  forall st,
    (forall k v, In (k, v) (selectedByAgent st) ->
                 isSelection env store llm config v) ->
    forall k v,
      In (k, v)
         (selectedByAgent
            (fold_left (distillAgent env config store llm) agentList st)) ->
      isSelection env store llm config v.
Proof.
  induction agentList as [|agent agentList IH]; intros st Hst; simpl.
  - exact Hst.
  - apply IH. now apply distillAgent_selection.
Qed.

(** Whatever [distill] retains was selected for some agent. *)
Lemma flatMemories_origin (r : ScoredMemory) :
  In r (flatMemories (distill env store llm config)) ->
  exists agent k,
    In r (selectTop config
            (fst (scoreAll env config llm k (filter preFilter (store agent))))).
Proof.
  unfold distill. cbn [flatMemories]. intros H.
  apply in_concat in H as (v & Hv & Hr).
  apply objectValues_In in Hv as [key Hv].
  apply fold_distillAgent_selection in Hv.
  - destruct Hv as (agent & k & ->). eauto.
  - intros ? ? [].
Qed.

(** What the scorer of the run returns for the memories it is given. *)
Lemma scoreAll_In (k : nat) (filtered : list AgentMemory) (r : ScoredMemory) :
  In r (fst (scoreAll env config llm k filtered)) ->
  exists m,
    In m filtered
    /\ (r = scoreMemory m
        \/ llmEnabled env config = true
           /\ (r = fallbackScore m \/ exists s, r = llmScored m s)).
Proof.
  unfold scoreAll. destruct (llmEnabled env config).
  - intros H. apply scoreBatch_In in H as (m & Hm & Hr).
    exists m. auto.
  - cbn [fst]. intros H. apply in_map_iff in H as (m & <- & Hm).
    exists m. auto.
Qed.

End RunFacts.

(* ===================================================================== *)
(** ** Properties of the heuristic scorer *)
(* ===================================================================== *)

(** C1, as worded, does not hold.  The record [Examples.shortRuleMemory]
    (text ["rule test skipping error 500"]) collects the ["rule"] tag and
    reaches the score 50 + 10 - 10 - 20 - 15 - 10 = 5; the noise floor,
    tested after the rule override, sets its category to ["noise"]. *)
Lemma rule_tag_under_noise_floor :
  In tag_rule (tags (scoreMemory (rt := asciiRuntime) Examples.shortRuleMemory))
  /\ category (scoreMemory (rt := asciiRuntime) Examples.shortRuleMemory)
     <> system_rule.
Proof.
  split.
  - vm_compute. now left.
  - vm_compute. discriminate.
Qed.

(** The record of the counterexample is one the pre-filter lets through,
    so a run does score it. *)
Example shortRuleMemory_reaches_scorer :
  preFilter (rt := asciiRuntime) Examples.shortRuleMemory = true
  /\ rawScore (rt := asciiRuntime) Examples.shortRuleMemory = 5%Z.
Proof. split; reflexivity. Qed.

(** C1, amended.  For every record whose collected tags include ["rule"]
    and whose quality score is at least 30, the returned category is
    ["system_rule"], whatever the originating agent. *)
Theorem rule_tag_forces_system_rule {rt : JsRuntime} (m : AgentMemory) :
  In tag_rule (tags (scoreMemory m)) ->
  (30 <= qualityScore (scoreMemory m))%Z ->
  category (scoreMemory m) = system_rule.
Proof.
  unfold scoreMemory. cbn [tags qualityScore category]. intros Hr Hs.
  apply assignCategory_rule; [assumption | lia].
Qed.

(** C1, amended: the agent ["ops"] has no branch of its own, and its rule
    scores 60. *)
Lemma rule_tag_forces_system_rule_witness :
  In tag_rule (tags (scoreMemory (rt := asciiRuntime) Examples.plainRuleMemory))
  /\ (30 <= qualityScore (scoreMemory (rt := asciiRuntime) Examples.plainRuleMemory))%Z
  /\ category (scoreMemory (rt := asciiRuntime) Examples.plainRuleMemory)
     = system_rule.
Proof.
  assert (H1 : In tag_rule
                 (tags (scoreMemory (rt := asciiRuntime) Examples.plainRuleMemory)))
    by (vm_compute; now left).
  assert (H2 : (30 <= qualityScore
                        (scoreMemory (rt := asciiRuntime) Examples.plainRuleMemory))%Z)
    by (vm_compute; discriminate).
  exact (conj H1 (conj H2
           (rule_tag_forces_system_rule (rt := asciiRuntime)
              Examples.plainRuleMemory H1 H2))).
Defined.

(** C4.  A record whose heuristic quality score is below 30 has category
    ["noise"]; and whatever the environment, the store, the replies of the
    service and the configuration (a minimum quality score of 0 included),
    no record of category ["noise"] is in what [selectTop] keeps for an
    agent nor in the set [distill] retains. *)
Theorem noise_floor_and_retention {rt : JsRuntime} :
  (forall m : AgentMemory,
      (qualityScore (scoreMemory m) < 30)%Z -> category (scoreMemory m) = noise)
  /\ (forall (config : DistillConfig) (scored : list ScoredMemory) (r : ScoredMemory),
         In r (selectTop config scored) -> category r <> noise)
  /\ (forall (env : Env) (store : Store) (llm : Oracle) (config : DistillConfig)
             (r : ScoredMemory),
         In r (flatMemories (distill env store llm config)) -> category r <> noise).
Proof.
  assert (Hsel : forall config scored r,
             In r (selectTop config scored) -> category r <> noise).
  { intros config scored r H.
    apply selectTop_In in H as (_ & _ & Hn & _).
    unfold notNoise in Hn. apply negb_true_iff in Hn.
    now apply str_eqb_neq. }
  split; [|split].
  - intros m H. unfold scoreMemory in *. cbn [qualityScore category] in *.
    apply assignCategory_floor. lia.
  - exact Hsel.
  - intros env store llm config r H.
    apply flatMemories_origin in H as (agent & k & H). eauto.
Qed.

(** C4 at work: [Examples.shortRuleMemory] scores 5 and is noise; with a
    minimum quality score of 0, the run over [Examples.twoRuleStore]
    retains the scored [Examples.plainRuleMemory], which is not noise. *)
Lemma noise_floor_and_retention_witness :
  category (scoreMemory (rt := asciiRuntime) Examples.shortRuleMemory) = noise
  /\ category (scoreMemory (rt := asciiRuntime) Examples.plainRuleMemory) <> noise.
Proof.
  split.
  - apply (proj1 (noise_floor_and_retention (rt := asciiRuntime))).
    vm_compute. reflexivity.
  - apply (proj2 (proj2 (noise_floor_and_retention (rt := asciiRuntime)))
             Examples.ruleEnv Examples.twoRuleStore Examples.praisingOracle
             (Examples.configOf [js "ops"] (ofZ 0) false)).
    vm_compute. now left.
Defined.

(** C5.  Every record the heuristic scorer returns, every record built
    from a matched entry of the service, every fallback record, and so
    every record of a chunk and of [scoreBatch], has a quality score
    between 0 and 100 and a category out of the ten of the closed set. *)
Theorem scored_records_well_formed {rt : JsRuntime} :
  (forall m : AgentMemory, wellFormed (scoreMemory m))
  /\ (forall (m : AgentMemory) (s : LlmScore), wellFormed (llmScored m s))
  /\ (forall m : AgentMemory, wellFormed (fallbackScore m))
  /\ (forall (reply : LlmReply) (batch : list AgentMemory) (r : ScoredMemory),
         In r (scoreSingleBatch reply batch) -> wellFormed r)
  /\ (forall (llm : Oracle) (batchSize : option positive) (k : nat)
             (memories : list AgentMemory) (r : ScoredMemory),
         In r (fst (scoreBatch llm batchSize k memories)) -> wellFormed r).
Proof.
  assert (H1 : forall m : AgentMemory, wellFormed (scoreMemory m)).
  { intros m. unfold wellFormed, scoreMemory. cbn [qualityScore category].
    split; [lia | apply assignCategory_allowed]. }
  assert (H2 : forall m s, wellFormed (llmScored m s)).
  { intros m s. split.
    - apply clampScore_range.
    - apply llmScored_category_allowed. }
  assert (H3 : forall m : AgentMemory, wellFormed (fallbackScore m)).
  { intros m. exact (H1 m). }
  split; [exact H1 | split; [exact H2 | split; [exact H3 | split]]].
  - intros reply batch r H.
    apply scoreSingleBatch_In in H as (m & _ & [-> | [s ->]]);
      [apply H3 | apply H2].
  - intros llm bs k ms r H.
    apply scoreBatch_In in H as (m & _ & [-> | [s ->]]);
      [apply H3 | apply H2].
Qed.

(** C5 on the chunk whose reply names the category ["insight"]: the
    record is well formed, its category being replaced by ["noise"]. *)
Lemma scored_records_well_formed_witness :
  Forall wellFormed
    (scoreSingleBatch (rt := asciiRuntime) Examples.strangeCategoryReply
       [Examples.opsMemory])
  /\ wellFormed (scoreMemory (rt := asciiRuntime) Examples.shortRuleMemory).
Proof.
  destruct (scored_records_well_formed (rt := asciiRuntime))
    as (Hrule & _ & _ & Hchunk & _).
  split.
  - apply Forall_forall. intros r Hr. exact (Hchunk _ _ r Hr).
  - apply Hrule.
Defined.

Example strange_category_becomes_noise :
  List.map (fun r => (category r, qualityScore r, tags r))
    (scoreSingleBatch (rt := asciiRuntime) Examples.strangeCategoryReply
       [Examples.opsMemory])
  = [(noise, 72%Z, [noise; tag_llm_scored])].
Proof. reflexivity. Qed.

(** The scenario on the text as the scorer reads it, lower-cased. *)
Lemma trader_win_on_lowered {rt : JsRuntime} (m : AgentMemory) :
  source_agent m = js "trader" ->
  includes (loweredText m) (js "win") = true ->
  (200 < List.length (loweredText m) <= 500)%nat ->
  (forall g, In g keywordGroups -> g <> winGroup ->
             groupMatches (loweredText m) g = false) ->
  errorAnd500 (loweredText m) = false ->
  skippingOrNoOutput (loweredText m) = false ->
  testNotBacktest (loweredText m) = false ->
  qualityScore (scoreMemory m) = 70%Z
  /\ category (scoreMemory m) = trading_win_pattern
  /\ In tag_win (tags (scoreMemory m)).
Proof.
  intros Hagent Hwin Hlen Hother Herr Hskip Htest.
  assert (Hw : groupMatches (loweredText m) winGroup = true).
  { unfold groupMatches, winGroup. cbn [keywords existsb]. now rewrite Hwin. }
  assert (Hno : forall g, In g keywordGroups -> tag g <> tag_win ->
                          groupMatches (loweredText m) g = false).
  { intros g Hg Htag. apply Hother; [assumption|]. now intros ->. }
  assert (Hp := Hno patternGroup). assert (Hf := Hno fixGroup).
  assert (Hr := Hno ruleGroup). assert (Ht := Hno technicalGroup).
  assert (Ha := Hno architectureGroup). assert (Hl := Hno lessonGroup).
  unfold keywordGroups in Hp, Hf, Hr, Ht, Ha, Hl.
  assert (Htags : collectedTags m = [tag_win]).
  { unfold collectedTags, keywordGroups. cbn [applyGroups].
    rewrite Hw, Hp, Hf, Hr, Ht, Ha, Hl;
      solve [ reflexivity | cbn [In]; tauto | vm_compute; discriminate ]. }
  assert (Hraw : rawScore m = 70%Z).
  { unfold rawScore, keywordGroups. cbn [applyGroups].
    rewrite Hw, Hp, Hf, Hr, Ht, Ha, Hl;
      try solve [ cbn [In]; tauto | vm_compute; discriminate ].
    unfold adjust, tooShort. rewrite Herr, Hskip, Htest.
    replace (200 <? List.length (loweredText m))%nat with true
      by (symmetry; apply Nat.ltb_lt; lia).
    replace (500 <? List.length (loweredText m))%nat with false
      by (symmetry; apply Nat.ltb_ge; lia).
    replace (List.length (loweredText m) <? 30)%nat with false
      by (symmetry; apply Nat.ltb_ge; lia).
    reflexivity. }
  unfold scoreMemory. cbn [qualityScore category tags].
  rewrite Hraw, Htags, Hagent. split; [reflexivity|]. split.
  - unfold assignCategory.
    replace (str_eqb (js "trader") (js "trader")) with true by reflexivity.
    reflexivity.
  - now left.
Qed.

(** C8.  For every record of the agent ["trader"] whose text contains
    ["win"] and is 250 long, where the scorer finds no keyword group but
    the win group and none of the penalty conditions, the heuristic scorer
    returns the quality score 70, the category ["trading_win_pattern"] and
    a tag list that includes ["win"].  The scorer reads the lower-cased
    text; [LowerCaseLaws] carries what is known of lower-casing. *)
Theorem trader_win_scenario {rt : JsRuntime} (m : AgentMemory) :
  LowerCaseLaws rt ->
  source_agent m = js "trader" ->
  includes (text m) (js "win") = true ->
  List.length (text m) = 250%nat ->
  (forall g, In g keywordGroups -> g <> winGroup ->
             groupMatches (loweredText m) g = false) ->
  errorAnd500 (loweredText m) = false ->
  skippingOrNoOutput (loweredText m) = false ->
  testNotBacktest (loweredText m) = false ->
  qualityScore (scoreMemory m) = 70%Z
  /\ category (scoreMemory m) = trading_win_pattern
  /\ In tag_win (tags (scoreMemory m)).
Proof.
  intros Hlaws Hagent Hwin Hlen Hother Herr Hskip Htest.
  apply trader_win_on_lowered; try assumption.
  - unfold loweredText. now apply (toLowerCase_keeps Hlaws).
  - unfold loweredText.
    pose proof (toLowerCase_length Hlaws (text m)). lia.
Qed.

(** C8 on [Examples.winMemory], ["win"] followed by 247 letters ["a"]. *)
Lemma trader_win_scenario_witness :
  qualityScore (scoreMemory (rt := asciiRuntime) Examples.winMemory) = 70%Z
  /\ category (scoreMemory (rt := asciiRuntime) Examples.winMemory)
     = trading_win_pattern
  /\ In tag_win (tags (scoreMemory (rt := asciiRuntime) Examples.winMemory)).
Proof.
  apply (trader_win_scenario (rt := asciiRuntime) Examples.winMemory);
    try exact asciiRuntime_laws;
    try (vm_compute; reflexivity).
  intros g Hg Hne. unfold keywordGroups in Hg. cbn [In] in Hg.
  repeat (destruct Hg as [<- | Hg]);
    try (vm_compute; reflexivity); contradiction.
Defined.

(* ===================================================================== *)
(** ** Properties of the pre-filter *)
(* ===================================================================== *)

Section PreFilterFacts.

Context {rt : JsRuntime}.

Lemma preFilter_short (m : AgentMemory) :
  (List.length (trim (text m)) < 20)%nat -> preFilter m = false.
Proof.
  intros H. unfold preFilter. apply Nat.ltb_lt in H. now rewrite H.
Qed.

(** The three tests of [preFilter] on the trimmed text, one by one. *)
Lemma preFilter_rejects_trimmed (m : AgentMemory) :
  preFilter m = false
  <-> ((List.length (trim (text m)) < 20)%nat
       \/ (exists junk, In junk junkSubstrings
                        /\ includes (toLowerCase (trim (text m))) junk = true)
       \/ (exists word, In word junkWords
                        /\ matchesWordIgnoreCase (trim (text m)) word = true)).
Proof.
  split.
  - unfold preFilter.
    destruct (List.length (trim (text m)) <? 20)%nat eqn:E1;
      [left; now apply Nat.ltb_lt|].
    destruct (includes (toLowerCase (trim (text m)))
                       (js "subagent direct hook test")) eqn:E2.
    { intros _. right. left. eexists. split; [|exact E2].
      unfold junkSubstrings. cbn [In]. auto. }
    destruct (includes (toLowerCase (trim (text m))) (js "skipping:")) eqn:E3.
    { intros _. right. left. eexists. split; [|exact E3].
      unfold junkSubstrings. cbn [In]. auto. }
    destruct (includes (toLowerCase (trim (text m))) (js "no output")) eqn:E4.
    { intros _. right. left. eexists. split; [|exact E4].
      unfold junkSubstrings. cbn [In]. auto. }
    destruct (existsb (matchesWordIgnoreCase (trim (text m))) junkWords) eqn:E5;
      [|discriminate].
    intros _. right. right.
    apply existsb_exists in E5 as (word & Hin & Hm). eauto.
  - intros [H | [(junk & Hin & Hj) | (word & Hin & Hw)]].
    + now apply preFilter_short.
    + unfold preFilter.
      destruct (List.length (trim (text m)) <? 20)%nat; [reflexivity|].
      unfold junkSubstrings in Hin. cbn [In] in Hin.
      destruct Hin as [<- | [<- | [<- | []]]]; rewrite Hj;
        repeat match goal with
               | |- context [if ?b then _ else _] => destruct b
               end; reflexivity.
    + apply preFilter_short. apply matchesWordIgnoreCase_length in Hw.
      unfold junkWords in Hin. cbn [In] in Hin.
      destruct Hin as [<- | [<- | [<- | [<- | [<- | []]]]]];
        rewrite Hw; vm_compute; lia.
Qed.

(** A junk substring occurs in the lower-cased text exactly when it occurs
    in the lower-cased trimmed text: it neither starts nor ends with white
    space. *)
Lemma junk_in_untrimmed (s junk : jsstring) :
  LowerCaseLaws rt -> In junk junkSubstrings ->
  includes (toLowerCase (trim s)) junk = includes (toLowerCase s) junk.
Proof.
  intros Hlaws Hin. rewrite (toLowerCase_trim Hlaws).
  apply trim_keeps_occurrence.
  unfold junkSubstrings in Hin. cbn [In] in Hin.
  destruct Hin as [<- | [<- | [<- | []]]]; reflexivity.
Qed.

End PreFilterFacts.

(** C7.  [preFilter] is a function (one answer for every record, no error)
    that rejects a record exactly when its trimmed text is shorter than 20,
    or its text, lower-cased, contains one of the junk substrings
    ["subagent direct hook test"], ["skipping:"], ["no output"], or the
    trimmed text equals one of ["ok"], ["yes"], ["no"], ["done"], ["test"]
    up to the case of its letters.  The junk substrings are searched in the
    lower-cased trimmed text (first part); under [LowerCaseLaws] that is
    the same as searching the lower-cased text (second part).  In
    particular a text of 19 characters is rejected, and so is a text that
    spells ["test"] in any mix of cases. *)
Theorem preFilter_rejects_exactly {rt : JsRuntime} :
  (forall m : AgentMemory,
      preFilter m = false
      <-> ((List.length (trim (text m)) < 20)%nat
           \/ (exists junk, In junk junkSubstrings
                            /\ includes (toLowerCase (trim (text m))) junk = true)
           \/ (exists word, In word junkWords
                            /\ matchesWordIgnoreCase (trim (text m)) word = true)))
  /\ (LowerCaseLaws rt ->
      forall m : AgentMemory,
        preFilter m = false
        <-> ((List.length (trim (text m)) < 20)%nat
             \/ (exists junk, In junk junkSubstrings
                              /\ includes (toLowerCase (text m)) junk = true)
             \/ (exists word, In word junkWords
                              /\ matchesWordIgnoreCase (trim (text m)) word = true)))
  /\ (forall m : AgentMemory,
         List.length (text m) = 19%nat -> preFilter m = false)
  /\ (forall m : AgentMemory,
         matchesWordIgnoreCase (text m) (js "test") = true -> preFilter m = false).
Proof.
  split; [exact preFilter_rejects_trimmed|]. split; [|split].
  - intros Hlaws m. rewrite preFilter_rejects_trimmed.
    split; (intros [H | [(junk & Hin & Hj) | H]];
            [now left | right; left | now right; right]);
      exists junk; (split; [assumption|]).
    + now rewrite <- (junk_in_untrimmed (text m) Hlaws Hin).
    + now rewrite (junk_in_untrimmed (text m) Hlaws Hin).
  - intros m H. apply preFilter_short. pose proof (trim_length (text m)). lia.
  - intros m H. apply preFilter_short. apply matchesWordIgnoreCase_length in H.
    pose proof (trim_length (text m)). rewrite H in *.
    change (List.length (js "test")) with 4%nat in *. lia.
Qed.

(** C7 on three records: nineteen letters ["a"], ["TeSt"], and a sentence
    that holds ["Skipping:"] between blanks. *)
Lemma preFilter_rejects_exactly_witness :
  preFilter (rt := asciiRuntime)
    (Examples.memoryOf (js "trader") (repeat 97%N 19)) = false
  /\ preFilter (rt := asciiRuntime)
       (Examples.memoryOf (js "trader") (js "TeSt")) = false
  /\ preFilter (rt := asciiRuntime)
       (Examples.memoryOf (js "scrum") (js "  Skipping: nothing new to report today ")) = false.
Proof.
  destruct (preFilter_rejects_exactly (rt := asciiRuntime))
    as (_ & Hraw & Hshort & Htest).
  split; [|split].
  - apply Hshort. reflexivity.
  - apply Htest. reflexivity.
  - apply (Hraw asciiRuntime_laws).
    right. left. exists (js "skipping:"). split; [|reflexivity].
    unfold junkSubstrings. cbn [In]. auto.
Defined.

(** A text the pre-filter lets through. *)
Example preFilter_accepts_plain_rule :
  preFilter (rt := asciiRuntime) Examples.plainRuleMemory = true.
Proof. reflexivity. Qed.

(* ===================================================================== *)
(** ** Properties of the batch scorer *)
(* ===================================================================== *)

(** [round] is the nearest integer, a half going up. *)
Lemma round_nearest (q : Q) :
  (inject_Z (round q) - (1 # 2) <= q)%Q /\ (q < inject_Z (round q) + (1 # 2))%Q.
Proof.
  unfold round.
  pose proof (Qfloor_le (q + (1 # 2))) as Hlo.
  pose proof (Qlt_floor (q + (1 # 2))) as Hhi.
  rewrite inject_Z_plus in Hhi. change (inject_Z 1) with 1%Q in Hhi.
  revert Hlo Hhi. generalize (inject_Z (Qfloor (q + (1 # 2)))).
  intros x Hlo Hhi. split; lra.
Qed.

(** C2, as worded, does not hold.  For the reply
    [[{"index": 0, "score": 85.5, "category": "market_insight", ...}]] the
    record of the memory at position 0 carries 86, which is not 85.5 cut
    to the range 0-100. *)
Lemma fractional_score_is_rounded :
  List.map qualityScore
    (scoreSingleBatch (rt := asciiRuntime) Examples.fractionalReply
       [Examples.opsMemory]) = [86%Z]
  /\ ~ (inject_Z 86 == Examples.clampedAsWorded (Fin (171 # 2)))%Q.
Proof.
  split; [reflexivity|].
  vm_compute. discriminate.
Qed.

(** C2, amended.  In a chunk whose reply parses, for the memory at
    position [idx] and the first entry [parseScores] returns with that
    index: the entry's score is finite (the others are dropped by
    [parseScores]), the record carries it rounded to the nearest integer
    and then clamped to 0-100, its category is the entry's when that is
    one of the ten and ["noise"] otherwise, its tags are exactly that
    category followed by ["llm-scored"], and its scoring method is llm. *)
Theorem matched_entry_record {rt : JsRuntime} (parsed : ParsedText)
    (scores : list LlmScore) (batch : list AgentMemory) (idx : nat)
    (memory : AgentMemory) (entry : LlmScore) :
  parseScores parsed = Ok scores ->
  nth_error batch idx = Some memory ->
  findScore scores idx = Some entry ->
  exists (r : ScoredMemory) (q : Q),
    nth_error (scoreSingleBatch (Content parsed) batch) idx = Some r
    /\ score entry = Fin q
    /\ qualityScore r = Z.min 100 (Z.max 0 (round q))
    /\ (0 <= qualityScore r <= 100)%Z
    /\ category r = (if arr_includes ALLOWED_CATEGORIES (llm_category entry)
                     then llm_category entry else noise)
    /\ tags r = [category r; tag_llm_scored]
    /\ scoringMethod r = Llm
    /\ base r = memory.
Proof.
  intros Hparse Hnth Hfind.
  pose proof (parseScores_finite _ Hparse) as Hfin.
  destruct (findScore_In _ _ Hfind) as [Hin _].
  rewrite Forall_forall in Hfin. destruct (Hfin _ Hin) as [_ Hscore].
  destruct (score entry) as [| | |q] eqn:Eq; try discriminate.
  exists (llmScored memory entry), q.
  split.
  { unfold scoreSingleBatch, tryScoreSingleBatch. cbn [bind]. rewrite Hparse.
    cbn [bind]. rewrite mapi_nth, Hnth. cbn [option_map].
    unfold scoreWith. now rewrite Hfind. }
  unfold llmScored. cbn [qualityScore category tags scoringMethod base].
  rewrite Eq. cbn [clampScore].
  repeat split; try reflexivity; lia.
Qed.

(** C2, amended, on the reply with the score 85.5. *)
Lemma matched_entry_record_witness :
  exists (r : ScoredMemory) (q : Q),
    nth_error (scoreSingleBatch (rt := asciiRuntime) Examples.fractionalReply
                 [Examples.opsMemory]) 0 = Some r
    /\ Fin (171 # 2) = Fin q
    /\ qualityScore r = Z.min 100 (Z.max 0 (round q))
    /\ (0 <= qualityScore r <= 100)%Z
    /\ category r = market_insight
    /\ tags r = [category r; tag_llm_scored]
    /\ scoringMethod r = Llm
    /\ base r = Examples.opsMemory.
Proof.
  exact (@matched_entry_record asciiRuntime
           (ArrayOf [Item (ofZ 0) (Fin (171 # 2)) market_insight (js "solid")])
           [{| index := ofZ 0; score := Fin (171 # 2);
               llm_category := market_insight; reasoning := js "solid" |}]
           [Examples.opsMemory] 0%nat Examples.opsMemory
           {| index := ofZ 0; score := Fin (171 # 2);
              llm_category := market_insight; reasoning := js "solid" |}
           eq_refl eq_refl eq_refl).
Defined.

Section FallbackFacts.

Context {rt : JsRuntime}.

Lemma failed_reply_throws (reply : LlmReply) (batch : list AgentMemory) :
  reply = CallFails \/ reply = Content Malformed \/ reply = Content NonArray ->
  exists e, tryScoreSingleBatch reply batch = Thrown e.
Proof.
  intros [-> | [-> | ->]]; cbn; eauto.
Qed.

Lemma thrown_chunk_falls_back (reply : LlmReply) (batch : list AgentMemory)
    (e : Error) :
  tryScoreSingleBatch reply batch = Thrown e ->
  scoreSingleBatch reply batch = List.map fallbackScore batch.
Proof. unfold scoreSingleBatch. now intros ->. Qed.

Lemma scoreChunks_all_failed (llm : Oracle) (batches : list (list AgentMemory)) :
  (forall k batch, exists e, tryScoreSingleBatch (llm k batch) batch = Thrown e) ->
  forall k,
    fst (scoreChunks llm k batches)
    = List.map fallbackScore (List.concat batches).
Proof.
  intros Hfail. induction batches as [|batch batches IH]; intros k; simpl.
  - reflexivity.
  - specialize (IH (S k)).
    destruct (scoreChunks llm (S k) batches) as [results k']. simpl in *.
    destruct (Hfail k batch) as [e He].
    rewrite (thrown_chunk_falls_back _ _ He), map_app. now rewrite IH.
Qed.

End FallbackFacts.

(** C3.  When the request of a chunk fails, or its reply is not valid JSON
    or not an array, the [try] block throws and [scoreSingleBatch] returns,
    for the memories of the chunk in their order, one record each: the
    heuristic score of the memory, scoring method rule, with the tag
    ["llm-fallback"] appended.  The error stops there: the chunk yields a
    result, and a [scoreBatch] whose every request fails returns the
    fallback of every memory, in order. *)
Theorem failed_chunk_falls_back {rt : JsRuntime} (reply : LlmReply)
    (batch : list AgentMemory) :
  reply = CallFails \/ reply = Content Malformed \/ reply = Content NonArray ->
  (exists e, tryScoreSingleBatch reply batch = Thrown e)
  /\ scoreSingleBatch reply batch
     = List.map (fun m => withFallbackTag (scoreMemory m)) batch
  /\ List.length (scoreSingleBatch reply batch) = List.length batch
  /\ (forall i m,
         nth_error batch i = Some m ->
         exists r,
           nth_error (scoreSingleBatch reply batch) i = Some r
           /\ base r = m
           /\ scoringMethod r = Rule
           /\ qualityScore r = qualityScore (scoreMemory m)
           /\ category r = category (scoreMemory m)
           /\ tags r = tags (scoreMemory m) ++ [tag_llm_fallback])
  /\ (forall (llm : Oracle) (step : positive) (k : nat)
             (memories : list AgentMemory),
         (forall j b, llm j b = reply) ->
         fst (scoreBatch llm (Some step) k memories)
         = List.map (fun m => withFallbackTag (scoreMemory m)) memories).
Proof.
  intros Hfail.
  assert (Hthrow : forall b, exists e, tryScoreSingleBatch reply b = Thrown e)
    by (intros b; now apply failed_reply_throws).
  destruct (Hthrow batch) as [e He].
  pose proof (thrown_chunk_falls_back _ _ He) as Hmap.
  split; [eauto|]. split; [exact Hmap|]. split; [|split].
  - rewrite Hmap. apply length_map.
  - intros i m Hnth. exists (fallbackScore m). split.
    + rewrite Hmap. now apply map_nth_error.
    + unfold fallbackScore, withFallbackTag, scoreMemory. cbn. auto.
  - intros llm step k memories Hllm. unfold scoreBatch.
    rewrite scoreChunks_all_failed.
    + now rewrite concat_chunks.
    + intros j b. rewrite Hllm. apply Hthrow.
Qed.

(** C3 on a chunk of two memories whose request fails. *)
Lemma failed_chunk_falls_back_witness :
  List.map (fun r => (scoringMethod r, qualityScore r))
    (scoreSingleBatch (rt := asciiRuntime) CallFails
       [Examples.opsMemory; Examples.plainRuleMemory])
  = [(Rule, 50%Z); (Rule, 60%Z)].
Proof.
  rewrite (proj1 (proj2 (failed_chunk_falls_back (rt := asciiRuntime)
                           [Examples.opsMemory; Examples.plainRuleMemory]
                           (or_introl eq_refl)))).
  reflexivity.
Defined.

(* ===================================================================== *)
(** ** Properties of selection *)
(* ===================================================================== *)

(** Among the records a lower threshold lets through, the ones a higher
    threshold lets through are those it accepts. *)
Lemma filter_higher_minimum (eligibleSet : list jsstring) (t1 t2 : number)
    (scored : list ScoredMemory) :
  leb t1 t2 = true ->
  filter (meetsMinimum t2)
    (filter (eligible eligibleSet)
       (filter notNoise (filter (meetsMinimum t1) scored)))
  = filter (eligible eligibleSet)
      (filter notNoise (filter (meetsMinimum t2) scored)).
Proof.
  intros Hle. induction scored as [|x xs IH]; [reflexivity|].
  assert (Himp : meetsMinimum t2 x = true -> meetsMinimum t1 x = true)
    by (unfold meetsMinimum; now apply leb_trans_ofZ).
  cbn [filter].
  destruct (meetsMinimum t1 x) eqn:E1, (meetsMinimum t2 x) eqn:E2;
    try (specialize (Himp eq_refl); discriminate);
    cbn [filter];
    destruct (notNoise x); cbn [filter];
    try destruct (eligible eligibleSet x); cbn [filter];
    rewrite ?E2, ?IH; reflexivity.
Qed.

(** C6.  For a fixed sequence of scored records and a fixed configuration,
    and thresholds [t1 <= t2], what is kept for an agent with the minimum
    quality score [t2] is an initial part of what is kept with [t1]: every
    record kept under the higher threshold is kept under the lower one. *)
Theorem raising_minimum_only_removes (config : DistillConfig)
    (scored : list ScoredMemory) (t1 t2 : number) :
  leb t1 t2 = true ->
  (exists rest,
      selectTop (withMinimum t1 config) scored
      = selectTop (withMinimum t2 config) scored ++ rest)
  /\ incl (selectTop (withMinimum t2 config) scored)
          (selectTop (withMinimum t1 config) scored).
Proof.
  intros Hle.
  assert (Hprefix : exists rest,
             selectTop (withMinimum t1 config) scored
             = selectTop (withMinimum t2 config) scored ++ rest).
  { unfold selectTop, withMinimum.
    cbn [minQualityScore maxOutputPerAgent categories].
    rewrite (sortByScore_split (meetsMinimum t2)
               (filter (eligible (categories config))
                  (filter notNoise (filter (meetsMinimum t1) scored)))).
    - rewrite filter_higher_minimum by exact Hle. apply slice0_app.
    - intros x y _ _. apply meetsMinimum_separates. }
  split; [exact Hprefix|].
  destruct Hprefix as [rest ->]. intros r Hr. apply in_or_app. now left.
Qed.

(** C6 on [Examples.threeScored]: with the minimum 60 all three are kept,
    the 90 first; with 70 only the 90 is. *)
Lemma raising_minimum_only_removes_witness :
  leb (ofZ 60) (ofZ 70) = true
  /\ incl (selectTop (withMinimum (ofZ 70) (Examples.configOf [] NaN false))
                     Examples.threeScored)
          (selectTop (withMinimum (ofZ 60) (Examples.configOf [] NaN false))
                     Examples.threeScored).
Proof.
  split; [reflexivity|].
  exact (proj2 (raising_minimum_only_removes
                  (Examples.configOf [] NaN false) Examples.threeScored
                  (ofZ 60) (ofZ 70) eq_refl)).
Defined.

(** The order [selectTop] gives [Examples.threeScored]: the highest score
    first, the two equal scores in arrival order. *)
Example selectTop_threeScored :
  List.map (fun r => text (base r))
    (selectTop (Examples.configOf [] (ofZ 60) false) Examples.threeScored)
  = [js "second"; js "first"; js "third"].
Proof. reflexivity. Qed.

(** C9, as worded, does not hold.  With LLM scoring switched on, the
    memory [Examples.opsMemory] of the agent ["ops"], whose text holds no
    rule keyword, is retained by [distill]: the service gave it the score
    90 and the category ["market_insight"]. *)
Lemma llm_scored_unknown_agent_retained :
  List.map (fun r => (base r, category r, qualityScore r))
    (flatMemories
       (distill (rt := asciiRuntime) Examples.llmEnv Examples.opsStore
          Examples.praisingOracle
          (Examples.configOf [js "ops"] (ofZ 60) false)))
  = [(Examples.opsMemory, market_insight, 90%Z)]
  /\ ~ In (source_agent Examples.opsMemory) knownAgents
  /\ groupMatches (loweredText (rt := asciiRuntime) Examples.opsMemory) ruleGroup
     = false.
Proof.
  split; [reflexivity|]. split; [|reflexivity].
  unfold knownAgents. cbn [In].
  intros [H | [H | [H | [H | []]]]]; vm_compute in H; discriminate H.
Qed.

(** C9, amended.  For every record whose agent is none of ["trader"],
    ["fullstack"], ["scrum"], ["assistant"] and whose lower-cased text
    matches no rule keyword, the heuristic scorer returns the category
    ["noise"], whatever the score.  Such a record is never retained by a
    run scored by the heuristic scorer, whatever the rest of the
    configuration; a run retains one only when LLM scoring is on and the
    record was scored from an entry of the service. *)
Theorem unknown_agent_without_rule {rt : JsRuntime} :
  (forall m : AgentMemory,
      ~ In (source_agent m) knownAgents ->
      groupMatches (loweredText m) ruleGroup = false ->
      category (scoreMemory m) = noise)
  /\ (forall (env : Env) (store : Store) (llm : Oracle) (config : DistillConfig)
             (r : ScoredMemory),
         In r (flatMemories (distill env store llm config)) ->
         ~ In (source_agent (base r)) knownAgents ->
         groupMatches (loweredText (base r)) ruleGroup = false ->
         llmEnabled env config = true /\ scoringMethod r = Llm)
  /\ (forall (env : Env) (store : Store) (llm : Oracle) (config : DistillConfig)
             (r : ScoredMemory),
         llmEnabled env config = false ->
         ~ In (source_agent (base r)) knownAgents ->
         groupMatches (loweredText (base r)) ruleGroup = false ->
         ~ In r (flatMemories (distill env store llm config))).
Proof.
  assert (H1 : forall m : AgentMemory,
             ~ In (source_agent m) knownAgents ->
             groupMatches (loweredText m) ruleGroup = false ->
             category (scoreMemory m) = noise).
  { intros m Hagent Hrule. unfold scoreMemory. cbn [category].
    unfold knownAgents in Hagent. cbn [In] in Hagent.
    apply assignCategory_unknown_agent;
      try (intros E; apply Hagent; rewrite E; tauto).
    intros Hin. apply rule_tag_iff in Hin. congruence. }
  assert (H2 : forall env store llm config r,
             In r (flatMemories (distill env store llm config)) ->
             ~ In (source_agent (base r)) knownAgents ->
             groupMatches (loweredText (base r)) ruleGroup = false ->
             llmEnabled env config = true /\ scoringMethod r = Llm).
  { intros env store llm config r Hin Hagent Hrule.
    apply flatMemories_origin in Hin as (agent & k & Hin).
    apply selectTop_In in Hin as (Hin & _ & Hnoise & _).
    unfold notNoise in Hnoise. apply negb_true_iff, str_eqb_neq in Hnoise.
    apply scoreAll_In in Hin as (m & _ & [-> | [Hllm [-> | [s ->]]]]).
    - exfalso. apply Hnoise. now apply H1.
    - exfalso. apply Hnoise. now apply (H1 m).
    - now split. }
  split; [exact H1|]. split; [exact H2|].
  intros env store llm config r Hoff Hagent Hrule Hin.
  destruct (H2 _ _ _ _ _ Hin Hagent Hrule) as [Hon _]. congruence.
Qed.

(** C9, amended, on [Examples.opsMemory]: noise for the heuristic scorer,
    and absent from what a rule-scored run over [Examples.opsStore]
    retains. *)
Lemma unknown_agent_without_rule_witness :
  category (scoreMemory (rt := asciiRuntime) Examples.opsMemory) = noise
  /\ ~ In (scoreMemory (rt := asciiRuntime) Examples.opsMemory)
          (flatMemories
             (distill (rt := asciiRuntime) Examples.ruleEnv Examples.opsStore
                Examples.praisingOracle
                (Examples.configOf [js "ops"] (ofZ 0) false))).
Proof.
  assert (Hagent : ~ In (source_agent Examples.opsMemory) knownAgents).
  { unfold knownAgents. cbn [In].
    intros [H | [H | [H | [H | []]]]]; vm_compute in H; discriminate H. }
  split.
  - apply (proj1 (unknown_agent_without_rule (rt := asciiRuntime)));
      [exact Hagent | reflexivity].
  - apply (proj2 (proj2 (unknown_agent_without_rule (rt := asciiRuntime))));
      [reflexivity | exact Hagent | reflexivity].
Defined.

(* ===================================================================== *)
(** ** Properties of the write to the golden collection *)
(* ===================================================================== *)

(** C10.  [upsertGoldenMemories] on an empty set issues no [upsert] at
    all.  On any set, the points written, call after call, are the points
    of the memories in order, in calls of 1 to 128 points; and the point of
    a memory without a vector keeps the memory's id and carries a vector of
    1024 zeros.  A run that retains nothing sends no [upsert] either. *)
Theorem upsert_zero_vector_and_empty :
  upsertGoldenMemories [] = []
  /\ (forall memories : list ScoredMemory,
         List.concat (upsertGoldenMemories memories) = List.map toPoint memories)
  /\ (forall memories : list ScoredMemory,
         Forall (fun points => points <> [] /\ (List.length points <= 128)%nat)
                (upsertGoldenMemories memories))
  /\ (forall memory : ScoredMemory,
         vector (base memory) = None ->
         point_id (toPoint memory) = id (base memory)
         /\ point_vector (toPoint memory) = zeroVector)
  /\ List.length zeroVector = 1024%nat
  /\ Forall (fun x => x = ofZ 0) zeroVector
  /\ (forall (rt : JsRuntime) (env : Env) (store : Store) (llm : Oracle)
             (config : DistillConfig) (points : list Point),
         flatMemories (distill env store llm config) = [] ->
         ~ In (Upsert points) (storeOps (distill env store llm config))).
Proof.
  split; [reflexivity|]. split; [|split; [|split; [|split; [|split]]]].
  - intros [|m ms]; [reflexivity|].
    unfold upsertGoldenMemories. apply concat_chunks.
  - intros [|m ms]; [constructor|].
    unfold upsertGoldenMemories.
    exact (chunks_bounds chunkSize (List.map toPoint (m :: ms))).
  - intros memory H. unfold toPoint. cbn [point_id point_vector].
    now rewrite H.
  - unfold zeroVector. apply repeat_length.
  - unfold zeroVector. apply Forall_forall. intros x Hx.
    now apply repeat_spec in Hx.
  - intros rt env store llm config points Hflat.
    unfold distill in *. cbn [flatMemories storeOps] in *. rewrite Hflat.
    destruct (dryRun config); [intros []|].
    cbn [upsertGoldenMemories List.map app].
    intros [H | H]; [discriminate|].
    destruct (createSnapshot config); cbn [In] in H;
      intuition discriminate.
Qed.

(** C10 on a scored memory without a vector, and on a rule-scored run
    over [Examples.opsStore], which retains nothing. *)
Lemma upsert_zero_vector_and_empty_witness :
  point_vector (toPoint (scoreMemory (rt := asciiRuntime) Examples.plainRuleMemory))
  = zeroVector
  /\ ~ In (Upsert [])
          (storeOps
             (distill (rt := asciiRuntime) Examples.ruleEnv Examples.opsStore
                Examples.praisingOracle
                (Examples.configOf [js "ops"] (ofZ 0) false))).
Proof.
  destruct upsert_zero_vector_and_empty as (_ & _ & _ & Hzero & _ & _ & Hrun).
  split.
  - apply Hzero. reflexivity.
  - apply Hrun. reflexivity.
Defined.

(* ===================================================================== *)
(** ** Further facts about the heuristic scorer *)
(* ===================================================================== *)

Lemma NoDup_map_filter {A B : Type} (f : A -> B) (p : A -> bool) (xs : list A) :
  NoDup (List.map f xs) -> NoDup (List.map f (filter p xs)).
Proof.
  induction xs as [|x xs IH]; simpl; [trivial|].
  intros H. inversion H as [|? ? Hnotin Hrest]; subst.
  destruct (p x); simpl; [|now apply IH].
  constructor; [|now apply IH].
  intros Hin. apply Hnotin. apply in_map_iff in Hin as (y & Hy & Hin).
  apply filter_In in Hin as [Hin _]. apply in_map_iff. eauto.
Qed.

Lemma keywordGroups_tags_distinct : NoDup (List.map tag keywordGroups).
Proof.
  unfold keywordGroups. cbn [List.map].
  repeat (constructor;
          [cbn [In]; intros H;
           repeat (destruct H as [H | H]; [vm_compute in H; discriminate H|]);
           exact H|]).
  constructor.
Qed.

Lemma adjust_bounds (text : jsstring) (score : Z) :
  (score - 55 <= adjust text score <= score + 10)%Z.
Proof.
  unfold adjust.
  repeat match goal with
         | |- context [if ?b then _ else _] => destruct b
         end; lia.
Qed.

Lemma adjust_no_bonus (text : jsstring) (score : Z) :
  (List.length text <= 200)%nat -> (adjust text score <= score)%Z.
Proof.
  intros H. unfold adjust.
  replace (200 <? List.length text)%nat with false
    by (symmetry; apply Nat.ltb_ge; lia).
  replace (500 <? List.length text)%nat with false
    by (symmetry; apply Nat.ltb_ge; lia).
  repeat match goal with
         | |- context [if ?b then _ else _] => destruct b
         end; lia.
Qed.

(** Without the rule tag the chain never ends in ["system_rule"]. *)
Lemma assignCategory_system_rule (agent text : jsstring) (tags : list jsstring)
    (score : Z) :
  assignCategory agent text tags score = system_rule -> In tag_rule tags.
Proof.
  unfold assignCategory. intros H. apply arr_includes_In.
  destruct (arr_includes tags tag_rule); [reflexivity|]. exfalso.
  repeat match type of H with
         | context [if ?b then _ else _] => destruct b
         end; vm_compute in H; discriminate H.
Qed.

(** The categories each branch of the chain can end in. *)
Lemma assignCategory_by_agent (agent text : jsstring) (tags : list jsstring)
    (score : Z) :
  In (assignCategory agent text tags score)
     (if str_eqb agent (js "trader")
      then [trading_win_pattern; trading_loss_lesson; market_insight;
            system_rule; noise]
      else if str_eqb agent (js "fullstack")
      then [bug_fix_pattern; architecture_decision; code_pattern;
            system_rule; noise]
      else if str_eqb agent (js "scrum")
      then [process_improvement; system_rule; noise]
      else if str_eqb agent (js "assistant")
      then [project_context; system_rule; noise]
      else [system_rule; noise]).
Proof.
  unfold assignCategory.
  destruct (str_eqb agent (js "trader"));
    [|destruct (str_eqb agent (js "fullstack"));
      [|destruct (str_eqb agent (js "scrum"));
        [|destruct (str_eqb agent (js "assistant"))]]];
    repeat match goal with
           | |- context [if ?b then _ else _] => destruct b
           end;
    cbn [In]; auto 8.
Qed.

(* ===================================================================== *)
(** ** Further facts about the chunking loop and the batch scorer *)
(* ===================================================================== *)

(** The [i]-th turn of the loop sees [xs.slice(i * step, i * step + step)],
    and there is such a turn as long as [i * step < xs.length]. *)
Lemma chunks_nth {A : Type} (step : positive) (i : nat) :
  forall xs : list A,
    nth_error (chunks step xs) i
    = if (i * Pos.to_nat step <? List.length xs)%nat
      then Some (firstn (Pos.to_nat step) (skipn (i * Pos.to_nat step) xs))
      else None.
Proof.
  pose proof (Pos2Nat.is_pos step) as Hpos.
  induction i as [|i IH]; intros [|x xs]; simp chunks; try reflexivity.
  cbn [nth_error]. rewrite IH, length_skipn, skipn_skipn.
  replace (i * Pos.to_nat step + Pos.to_nat step)%nat
    with (S i * Pos.to_nat step)%nat by lia.
  destruct (i * Pos.to_nat step <? List.length (x :: xs) - Pos.to_nat step)%nat
    eqn:E1;
    destruct (S i * Pos.to_nat step <? List.length (x :: xs))%nat eqn:E2;
    try reflexivity;
    [apply Nat.ltb_lt in E1; apply Nat.ltb_ge in E2
    |apply Nat.ltb_ge in E1; apply Nat.ltb_lt in E2]; lia.
Qed.

(** The loop makes [ceil(xs.length / step)] turns. *)
Lemma chunks_count {A : Type} (step : positive) (xs : list A) :
  List.length (chunks step xs)
  = ((List.length xs + Pos.to_nat step - 1) / Pos.to_nat step)%nat.
Proof.
  pose proof (Pos2Nat.is_pos step) as Hpos.
  set (n := Pos.to_nat step) in *.
  set (turns := List.length (chunks step xs)).
  assert (Hle : (List.length xs <= turns * n)%nat).
  { pose proof (chunks_nth step turns xs) as H. fold n in H.
    destruct (turns * n <? List.length xs)%nat eqn:E.
    - assert (nth_error (chunks step xs) turns = None) as H'
        by (apply nth_error_None; unfold turns; lia).
      congruence.
    - now apply Nat.ltb_ge in E. }
  destruct turns as [|t] eqn:Et.
  - assert (List.length xs = 0)%nat as -> by lia.
    apply eq_sym, Nat.div_small. lia.
  - assert (Hlt : (t * n < List.length xs)%nat).
    { pose proof (chunks_nth step t xs) as H. fold n in H.
      destruct (t * n <? List.length xs)%nat eqn:E.
      - now apply Nat.ltb_lt in E.
      - assert (nth_error (chunks step xs) t <> None) as H'
          by (apply nth_error_Some; fold turns; lia).
        congruence. }
    apply Nat.div_unique with (r := (List.length xs - t * n - 1)%nat); nia.
Qed.

Lemma mapi_from_base {A B : Type} (f : A -> nat -> B) (g : B -> A) (xs : list A) :
  (forall x i, g (f x i) = x) ->
  forall i, List.map g (mapi_from f i xs) = xs.
Proof.
  intros Hg. induction xs as [|x xs IH]; intros i; simpl; [reflexivity|].
  now rewrite Hg, IH.
Qed.

Lemma round_inject_Z (z : Z) : round (inject_Z z) = z.
Proof.
  pose proof (round_nearest (inject_Z z)) as [Hlo Hhi].
  assert (H1 : (inject_Z (round (inject_Z z)) <= inject_Z z + (1 # 2))%Q) by lra.
  assert (H2 : (inject_Z z < inject_Z (round (inject_Z z)) + 1)%Q) by lra.
  assert (H3 : (inject_Z (round (inject_Z z)) < inject_Z z + 1)%Q) by lra.
  change 1%Q with (inject_Z 1) in H2, H3.
  rewrite <- inject_Z_plus in H2, H3.
  rewrite <- Zlt_Qlt in H2, H3. lia.
Qed.

Lemma round_monotone (a b : Q) : (a <= b)%Q -> (round a <= round b)%Z.
Proof.
  intros H. unfold round. apply Qfloor_resp_le. lra.
Qed.

Section MoreBatchFacts.

Context {rt : JsRuntime}.

Lemma scoreWith_base (scores : list LlmScore) (m : AgentMemory) (idx : nat) :
  base (scoreWith scores m idx) = m.
Proof.
  unfold scoreWith. now destruct (findScore scores idx).
Qed.

(** Whatever the reply, a chunk gives back its memories, one record each,
    in order. *)
Lemma scoreSingleBatch_base (reply : LlmReply) (batch : list AgentMemory) :
  List.map base (scoreSingleBatch reply batch) = batch.
Proof.
  unfold scoreSingleBatch.
  destruct (tryScoreSingleBatch reply batch) as [scored|e] eqn:E.
  - unfold tryScoreSingleBatch in E.
    destruct reply as [|parsed]; simpl in E; [discriminate|].
    destruct (parseScores parsed) as [scores|e]; simpl in E; [|discriminate].
    injection E as <-. apply mapi_from_base. apply scoreWith_base.
  - rewrite map_map. cbn. apply map_id.
Qed.

Lemma scoreChunks_base (llm : Oracle) (batches : list (list AgentMemory)) :
  forall k,
    List.map base (fst (scoreChunks llm k batches)) = List.concat batches
    /\ snd (scoreChunks llm k batches) = (k + List.length batches)%nat.
Proof.
  induction batches as [|batch batches IH]; intros k; simpl.
  - split; [reflexivity | lia].
  - destruct (IH (S k)) as [IH1 IH2].
    destruct (scoreChunks llm (S k) batches) as [results k']. simpl in *.
    rewrite map_app, scoreSingleBatch_base, IH1. split; [reflexivity | lia].
Qed.

Lemma scoreBatch_length_le (llm : Oracle) (batchSize : option positive)
    (k : nat) (memories : list AgentMemory) :
  (List.length (fst (scoreBatch llm batchSize k memories))
   <= List.length memories)%nat.
Proof.
  unfold scoreBatch. destruct batchSize as [step|].
  - destruct (scoreChunks_base llm (chunks step memories) k) as [H _].
    rewrite concat_chunks in H.
    apply (f_equal (@List.length _)) in H. rewrite length_map in H. lia.
  - destruct memories as [|m ms]; [simpl; lia|].
    cbn [scoreChunks fst]. rewrite length_app, scoreSingleBatch_length.
    simpl. lia.
Qed.

End MoreBatchFacts.

(* ===================================================================== *)
(** ** Further facts about ranking and truncation *)
(* ===================================================================== *)

Lemma sortByScore_length (xs : list ScoredMemory) :
  List.length (sortByScore xs) = List.length xs.
Proof.
  induction xs as [|x xs IH]; simpl; [reflexivity|].
  now rewrite insertRanked_length, IH.
Qed.

(** Records of one score keep, through the sort, the order they came in. *)
Lemma insertRanked_same_score (q : Z) (x : ScoredMemory) (ys : list ScoredMemory) :
  filter (fun r => qualityScore r =? q)%Z (insertRanked x ys)
  = filter (fun r => qualityScore r =? q)%Z (x :: ys).
Proof.
  induction ys as [|y ys IH]; [reflexivity|].
  cbn [insertRanked].
  destruct (qualityScore y <=? qualityScore x)%Z eqn:E; [reflexivity|].
  apply Z.leb_gt in E. cbn [filter] in *. rewrite IH.
  destruct (qualityScore x =? q)%Z eqn:Ex; [|reflexivity].
  apply Z.eqb_eq in Ex.
  replace (qualityScore y =? q)%Z with false
    by (symmetry; apply Z.eqb_neq; lia).
  reflexivity.
Qed.

Lemma sortByScore_same_score (q : Z) (xs : list ScoredMemory) :
  filter (fun r => qualityScore r =? q)%Z (sortByScore xs)
  = filter (fun r => qualityScore r =? q)%Z xs.
Proof.
  induction xs as [|x xs IH]; [reflexivity|].
  cbn [sortByScore]. rewrite insertRanked_same_score.
  cbn [filter]. now rewrite IH.
Qed.

(** Every [slice(0, n)] is an initial part of the array. *)
Lemma slice0_firstn {A : Type} (n : number) (xs : list A) :
  exists j, slice0 n xs = firstn j xs.
Proof.
  unfold slice0. destruct n as [| | |q].
  - now exists 0%nat.
  - exists (List.length xs). now rewrite firstn_all.
  - now exists 0%nat.
  - destruct (0 <=? truncate q)%Z; eauto.
Qed.

Lemma slice0_length_le {A : Type} (n : number) (xs : list A) :
  (List.length (slice0 n xs) <= List.length xs)%nat.
Proof.
  destruct (slice0_firstn n xs) as [j ->]. rewrite length_firstn. lia.
Qed.

(** A non-negative end bounds the length of the slice. *)
Lemma slice0_cap {A : Type} (n : number) (xs : list A) :
  leb (ofZ 0) n = true ->
  leb (ofZ (Z.of_nat (List.length (slice0 n xs)))) n = true.
Proof.
  unfold leb, ofZ, slice0. destruct n as [| | |q]; try discriminate;
    [reflexivity|].
  intros Hq. apply Qle_bool_iff in Hq. apply Qle_bool_iff.
  unfold truncate. assert (Qle_bool 0 q = true) as -> by now apply Qle_bool_iff.
  assert (Hfloor : (0 <= Qfloor q)%Z).
  { change 0%Z with (Qfloor 0). now apply Qfloor_resp_le. }
  apply Z.leb_le in Hfloor as Hb. rewrite Hb.
  apply Qle_trans with (y := inject_Z (Qfloor q)); [|apply Qfloor_le].
  rewrite <- Zle_Qle.
  rewrite length_firstn. lia.
Qed.

Lemma filter_length_le {A : Type} (p : A -> bool) (xs : list A) :
  (List.length (filter p xs) <= List.length xs)%nat.
Proof.
  induction xs as [|x xs IH]; simpl; [lia|].
  destruct (p x); simpl; lia.
Qed.

Lemma selectTop_length_le (config : DistillConfig) (scored : list ScoredMemory) :
  (List.length (selectTop config scored) <= List.length scored)%nat.
Proof.
  unfold selectTop.
  pose proof (slice0_length_le (maxOutputPerAgent config)
                (sortByScore
                   (filter (eligible (categories config))
                      (filter notNoise
                         (filter (meetsMinimum (minQualityScore config)) scored))))).
  rewrite sortByScore_length in H.
  pose proof (filter_length_le (eligible (categories config))
                (filter notNoise
                   (filter (meetsMinimum (minQualityScore config)) scored))).
  pose proof (filter_length_le notNoise
                (filter (meetsMinimum (minQualityScore config)) scored)).
  pose proof (filter_length_le (meetsMinimum (minQualityScore config)) scored).
  lia.
Qed.

Lemma StronglySorted_app_inv {A : Type} (R : A -> A -> Prop) (xs ys : list A) :
  StronglySorted R (xs ++ ys) ->
  StronglySorted R xs /\ StronglySorted R ys
  /\ (forall x y, In x xs -> In y ys -> R x y).
Proof.
  induction xs as [|a xs IH]; simpl; intros H.
  - repeat split; [constructor | assumption | intros ? ? []].
  - inversion H as [|? ? Hs Hall]; subst.
    destruct (IH Hs) as (H1 & H2 & H3).
    rewrite Forall_forall in Hall.
    repeat split; try assumption.
    + constructor; [assumption|]. apply Forall_forall.
      intros x Hx. apply Hall. apply in_or_app. now left.
    + intros x y [<- | Hx] Hy; [|now apply H3].
      apply Hall. apply in_or_app. now right.
Qed.

(* ===================================================================== *)
(** ** Further facts about [selectedByAgent] and the run *)
(* ===================================================================== *)

Lemma fold_left_invariant {A B : Type} (f : A -> B -> A) (P : A -> Prop)
    (bs : list B) :
  (forall a b, In b bs -> P a -> P (f a b)) ->
  forall a, P a -> P (fold_left f bs a).
Proof.
  induction bs as [|b bs IH]; intros Hstep a Ha; simpl; [assumption|].
  apply IH.
  - intros a' b' Hb'. apply Hstep. now right.
  - apply Hstep; [now left | assumption].
Qed.








Section MoreRunFacts.

Context {rt : JsRuntime}.

Variable env : Env.
Variable store : Store.
Variable llm : Oracle.
Variable config : DistillConfig.

Lemma scoreAll_length_le (k : nat) (filtered : list AgentMemory) :
  (List.length (fst (scoreAll env config llm k filtered))
   <= List.length filtered)%nat.
Proof.
  unfold scoreAll. destruct (llmEnabled env config).
  - apply scoreBatch_length_le.
  - cbn [fst]. rewrite length_map. lia.
Qed.

Lemma scoreAll_base (k : nat) (filtered : list AgentMemory) (r : ScoredMemory) :
  In r (fst (scoreAll env config llm k filtered)) -> In (base r) filtered.
Proof.
  intros H. apply scoreAll_In in H as (m & Hm & [-> | [_ [-> | [s ->]]]]);
    exact Hm.
Qed.

(** A property of the selections of the configured agents holds of every
    value of [selectedByAgent] at the end of the loop. *)
Lemma selected_values (Q : list ScoredMemory -> Prop) :
  (forall agent k,
      In agent (agents config) ->
      Q (selectTop config
           (fst (scoreAll env config llm k (filter preFilter (store agent)))))) ->
  forall key v,
    In (key, v)
       (selectedByAgent
          (fold_left (distillAgent env config store llm) (agents config)
             initialState)) ->
    Q v.
Proof.
  intros HQ.
  apply (fold_left_invariant (distillAgent env config store llm)
           (fun st => forall key v, In (key, v) (selectedByAgent st) -> Q v)).
  - intros st agent Hagent Hst key v. unfold distillAgent.
    destruct (scoreAll env config llm (requests st)
                (filter preFilter (store agent))) as [scored k'] eqn:E.
    cbn [selectedByAgent]. intros H.
    apply setProperty_In in H as [-> | H]; [|eauto].
    specialize (HQ agent (requests st) Hagent). now rewrite E in HQ.
  - intros key v [].
Qed.

Lemma flatMemories_values (r : ScoredMemory) :
  In r (flatMemories (distill env store llm config)) ->
  exists key v,
    In (key, v)
       (selectedByAgent
          (fold_left (distillAgent env config store llm) (agents config)
             initialState))
    /\ In r v.
Proof.
  unfold distill. cbn [flatMemories]. intros H.
  apply in_concat in H as (v & Hv & Hr).
  apply objectValues_In in Hv as [key Hv]. eauto.
Qed.

(** The counters of the loop: what is kept never exceeds what is
    processed, and neither is negative. *)
Lemma counters_ordered (agentList : list jsstring) :
  forall st,
    (0 <= kept st <= processed st)%Z ->
    (0 <= kept (fold_left (distillAgent env config store llm) agentList st)
     <= processed (fold_left (distillAgent env config store llm) agentList st))%Z.
Proof.
  apply (fold_left_invariant (distillAgent env config store llm)
           (fun st => (0 <= kept st <= processed st)%Z)).
  intros st agent _ Hst. unfold distillAgent.
  pose proof (scoreAll_length_le (requests st) (filter preFilter (store agent)))
    as Hscored.
  destruct (scoreAll env config llm (requests st)
              (filter preFilter (store agent))) as [scored k'].
  cbn [kept processed fst] in *.
  pose proof (selectTop_length_le config scored). lia.
Qed.


End MoreRunFacts.

(* ===================================================================== *)
(** ** Facts about [stripCodeFence] *)
(* ===================================================================== *)

Lemma includes_refl (s : jsstring) : includes s s = true.
Proof. apply includes_iff. exists [], []. now rewrite app_nil_r. Qed.

Lemma includes_tail (c : N) (s w : jsstring) :
  includes (c :: s) w = false -> includes s w = false.
Proof.
  cbn [includes]. intros H. now apply orb_false_iff in H as [_ H].
Qed.

Lemma firstFenced_none (s : jsstring) :
  includes s fence = false -> firstFenced s = None.
Proof.
  induction s as [|c s IH]; intros H; [reflexivity|].
  cbn [firstFenced]. pose proof H as H'. cbn [includes] in H'.
  apply orb_false_iff in H' as [-> _]. apply IH.
  now apply includes_tail in H.
Qed.

Lemma lazyCapture_prefix (s captured : jsstring) :
  lazyCapture s = Some captured -> exists post, s = captured ++ post.
Proof.
  revert captured. induction s as [|c s IH]; intros captured; cbn [lazyCapture].
  - destruct (closesHere []); [|discriminate]. intros [= <-]. now exists [].
  - destruct (closesHere (c :: s)).
    + intros [= <-]. now exists (c :: s).
    + destruct (lazyCapture s) as [inner|]; [|discriminate].
      intros [= <-]. destruct (IH inner eq_refl) as [post ->].
      now exists post.
Qed.

Lemma matchAtFence_inside (s captured : jsstring) :
  matchAtFence s = Some captured ->
  exists pre post, s = pre ++ captured ++ post.
Proof.
  unfold matchAtFence.
  assert (Hlabel : exists label, skipn 3 s = label ++ afterLabel (skipn 3 s)).
  { unfold afterLabel.
    destruct (matchesWordIgnoreCase (firstn 4 (skipn 3 s)) (js "json")).
    - exists (firstn 4 (skipn 3 s)). now rewrite firstn_skipn.
    - now exists []. }
  destruct Hlabel as [label Hlabel].
  destruct (trimStart_suffix (afterLabel (skipn 3 s))) as [ws1 H1].
  destruct (trimStart_suffix (skipn 3 s)) as [ws2 H2].
  destruct (lazyCapture (trimStart (afterLabel (skipn 3 s)))) as [c1|] eqn:E1.
  - intros [= <-]. apply lazyCapture_prefix in E1 as [post E1].
    exists (firstn 3 s ++ label ++ ws1), post.
    rewrite <- (firstn_skipn 3 s) at 1.
    rewrite Hlabel, H1, E1 at 1. now rewrite <- !app_assoc.
  - intros E2. apply lazyCapture_prefix in E2 as [post E2].
    exists (firstn 3 s ++ ws2), post.
    rewrite <- (firstn_skipn 3 s) at 1.
    rewrite H2, E2 at 1. now rewrite <- !app_assoc.
Qed.

Lemma firstFenced_inside (s captured : jsstring) :
  firstFenced s = Some captured ->
  exists pre post, s = pre ++ captured ++ post.
Proof.
  induction s as [|c s IH]; cbn [firstFenced]; [discriminate|].
  assert (Hrec : firstFenced s = Some captured ->
                 exists pre post, c :: s = pre ++ captured ++ post).
  { intros H. destruct (IH H) as (pre & post & ->). now exists (c :: pre), post. }
  destruct (startsWith (c :: s) fence); [|exact Hrec].
  destruct (matchAtFence (c :: s)) as [inner|] eqn:E; [|exact Hrec].
  intros [= <-]. now apply matchAtFence_inside.
Qed.

Lemma trimStart_white (gap rest : jsstring) :
  forallb isWhiteSpace gap = true -> trimStart (gap ++ rest) = trimStart rest.
Proof.
  induction gap as [|c gap IH]; simpl; [reflexivity|].
  intros H. apply andb_true_iff in H as [-> H]. now apply IH.
Qed.

Lemma trimStart_solid (c : N) (rest : jsstring) :
  isWhiteSpace c = false -> trimStart (c :: rest) = c :: rest.
Proof. intros H. simpl. now rewrite H. Qed.

Lemma startsWith_fence_head (c : N) (s : jsstring) :
  (c =? 96)%N = false -> startsWith (c :: s) fence = false.
Proof.
  intros H. change fence with (96 :: [96; 96])%N. cbn [startsWith].
  now rewrite N.eqb_sym, H.
Qed.

(** No closing fence starts, white space skipped, in front of a character
    that is neither white space nor a back-tick. *)
Lemma closesHere_blocked (b tail : jsstring) :
  (exists x, In x b /\ isWhiteSpace x = false) ->
  forallb (fun c => negb (c =? 96)%N) b = true ->
  closesHere (b ++ tail) = false.
Proof.
  unfold closesHere. induction b as [|c b IH]; intros (x & Hx & Hsolid) Htick.
  - destruct Hx.
  - cbn [forallb] in Htick. apply andb_true_iff in Htick as [Hc Htick].
    cbn [app trimStart]. destruct (isWhiteSpace c) eqn:Ec.
    + apply IH; [|assumption]. destruct Hx as [-> | Hx]; [congruence|eauto].
    + apply negb_true_iff in Hc. now apply startsWith_fence_head.
Qed.

Lemma lazyCapture_body (front : jsstring) (z : N) (gap post : jsstring) :
  isWhiteSpace z = false ->
  forallb (fun c => negb (c =? 96)%N) (front ++ [z]) = true ->
  forallb isWhiteSpace gap = true ->
  lazyCapture ((front ++ [z]) ++ gap ++ fence ++ post) = Some (front ++ [z]).
Proof.
  intros Hz Htick Hgap.
  assert (Hclose : lazyCapture (gap ++ fence ++ post) = Some []).
  { assert (closesHere (gap ++ fence ++ post) = true) as E.
    { unfold closesHere. rewrite trimStart_white by assumption.
      change (trimStart (fence ++ post)) with (fence ++ post).
      apply startsWith_iff. now exists post. }
    destruct (gap ++ fence ++ post); cbn [lazyCapture]; now rewrite E. }
  induction front as [|c front IH].
  - assert (Hblock : closesHere ([z] ++ gap ++ fence ++ post) = false).
    { apply closesHere_blocked; [|assumption].
      exists z. split; [now left | assumption]. }
    cbn [app] in *. cbn [lazyCapture]. now rewrite Hblock, Hclose.
  - assert (Hblock : closesHere ((c :: front ++ [z]) ++ gap ++ fence ++ post)
                     = false).
    { apply closesHere_blocked; [|assumption].
      exists z. split; [|assumption]. right. apply in_or_app. right. now left. }
    cbn [app] in *. cbn [lazyCapture]. rewrite Hblock.
    cbn [forallb] in Htick. apply andb_true_iff in Htick as [_ Htick].
    now rewrite (IH Htick).
Qed.

Lemma firstFenced_skips (pre rest : jsstring) :
  forallb (fun c => negb (c =? 96)%N) pre = true ->
  firstFenced (pre ++ rest) = firstFenced rest.
Proof.
  induction pre as [|c pre IH]; [reflexivity|].
  cbn [forallb app firstFenced]. intros H.
  apply andb_true_iff in H as [Hc H]. apply negb_true_iff in Hc.
  rewrite startsWith_fence_head by exact Hc. now apply IH.
Qed.

(* ===================================================================== *)
(** ** More properties of the heuristic scorer *)
(* ===================================================================== *)

Lemma applyGroups_unmatched (text : jsstring) (gs : list KeywordGroup)
    (st : Z * list jsstring) :
  (forall g, In g gs -> groupMatches text g = false) ->
  applyGroups text gs st = st.
Proof.
  revert st. induction gs as [|g gs IH]; intros st H; [reflexivity|].
  cbn [applyGroups]. rewrite (H g) by now left.
  apply IH. intros g' Hg'. apply H. now right.
Qed.

(** X1.  The tags of a heuristic record are the tags of the keyword groups
    its lower-cased text matches, in the order of the table; no tag occurs
    twice, however often a keyword occurs. *)
Theorem heuristic_tags_once_in_table_order {rt : JsRuntime} (m : AgentMemory) :
  tags (scoreMemory m)
  = List.map tag (filter (groupMatches (loweredText m)) keywordGroups)
  /\ NoDup (tags (scoreMemory m)).
Proof.
  assert (E : tags (scoreMemory m)
              = List.map tag (filter (groupMatches (loweredText m)) keywordGroups)).
  { unfold scoreMemory, collectedTags. cbn [tags].
    now rewrite applyGroups_tags. }
  split; [exact E|]. rewrite E.
  apply NoDup_map_filter, keywordGroups_tags_distinct.
Qed.

(** X2.  A text that matches no keyword group scores at most 60: at most
    50 when it is no longer than 200, at most 55 when no longer than 500. *)
Theorem unmatched_text_score_bound {rt : JsRuntime} (m : AgentMemory) :
  (forall g, In g keywordGroups -> groupMatches (loweredText m) g = false) ->
  (qualityScore (scoreMemory m) <= 60)%Z
  /\ ((List.length (loweredText m) <= 500)%nat ->
      (qualityScore (scoreMemory m) <= 55)%Z)
  /\ ((List.length (loweredText m) <= 200)%nat ->
      (qualityScore (scoreMemory m) <= 50)%Z).
Proof.
  intros Hnone.
  assert (Hraw : rawScore m = adjust (loweredText m) 50).
  { unfold rawScore. now rewrite applyGroups_unmatched. }
  unfold scoreMemory. cbn [qualityScore]. rewrite Hraw.
  pose proof (adjust_bounds (loweredText m) 50) as Hb.
  split; [lia|]. split.
  - intros Hlen. unfold adjust.
    replace (500 <? List.length (loweredText m))%nat with false
      by (symmetry; apply Nat.ltb_ge; lia).
    repeat match goal with
           | |- context [if ?b then _ else _] => destruct b
           end; lia.
  - intros Hlen. pose proof (adjust_no_bonus (loweredText m) 50 Hlen). lia.
Qed.

(** X2 on [Examples.opsMemory], 44 characters without a keyword. *)
Lemma unmatched_text_score_bound_witness :
  (qualityScore (scoreMemory (rt := asciiRuntime) Examples.opsMemory) <= 50)%Z.
Proof.
  apply (unmatched_text_score_bound (rt := asciiRuntime) Examples.opsMemory).
  - intros g Hg. unfold keywordGroups in Hg. cbn [In] in Hg.
    repeat (destruct Hg as [<- | Hg]); try (vm_compute; reflexivity);
      contradiction.
  - vm_compute. lia.
Defined.

(** X3.  The heuristic scorer returns ["system_rule"] exactly for the
    records whose lower-cased text holds a rule keyword and whose quality
    score is at least 30. *)
Theorem system_rule_exactly {rt : JsRuntime} (m : AgentMemory) :
  category (scoreMemory m) = system_rule
  <-> (groupMatches (loweredText m) ruleGroup = true
       /\ (30 <= qualityScore (scoreMemory m))%Z).
Proof.
  unfold scoreMemory. cbn [category qualityScore]. split.
  - intros H. split.
    + apply rule_tag_iff. now apply assignCategory_system_rule in H.
    + destruct (Z_lt_le_dec (rawScore m) 30) as [Hlt|Hge]; [|lia].
      rewrite assignCategory_floor in H by assumption.
      vm_compute in H. discriminate H.
  - intros [Hrule Hscore]. apply assignCategory_rule; [|lia].
    now apply rule_tag_iff.
Qed.

(** X4.  The category of a heuristic record stays within the branch of
    its agent: the three trading categories for ["trader"], the three code
    categories for ["fullstack"], ["process_improvement"] for ["scrum"],
    ["project_context"] for ["assistant"], and for every agent, known or
    not, ["system_rule"] and ["noise"]. *)
Theorem heuristic_category_by_agent {rt : JsRuntime} (m : AgentMemory) :
  In (category (scoreMemory m))
     (if str_eqb (source_agent m) (js "trader")
      then [trading_win_pattern; trading_loss_lesson; market_insight;
            system_rule; noise]
      else if str_eqb (source_agent m) (js "fullstack")
      then [bug_fix_pattern; architecture_decision; code_pattern;
            system_rule; noise]
      else if str_eqb (source_agent m) (js "scrum")
      then [process_improvement; system_rule; noise]
      else if str_eqb (source_agent m) (js "assistant")
      then [project_context; system_rule; noise]
      else [system_rule; noise]).
Proof.
  unfold scoreMemory. cbn [category]. apply assignCategory_by_agent.
Qed.

(* ===================================================================== *)
(** ** More properties of the batch scorer *)
(* ===================================================================== *)

(** X5.  A reply without three back-ticks in a row goes through
    [stripCodeFence] unchanged. *)
Theorem stripCodeFence_plain_text (text : jsstring) :
  includes text fence = false -> stripCodeFence text = text.
Proof.
  intros H. unfold stripCodeFence. now rewrite firstFenced_none.
Qed.

(** X5 on the reply [[1, 2]]. *)
Lemma stripCodeFence_plain_text_witness :
  stripCodeFence (js "[1, 2]") = js "[1, 2]".
Proof.
  apply stripCodeFence_plain_text. reflexivity.
Defined.

(** X6.  A reply made of a lead-in without back-ticks, an opening fence
    labelled [json] in any case, white space, a body, white space, a
    closing fence and anything after it is stripped to the body, provided
    the body holds no back-tick and neither starts nor ends with white
    space. *)
Theorem stripCodeFence_fenced_body
    (lead label gap body gap' post : jsstring) :
  forallb (fun c => negb (c =? 96)%N) lead = true ->
  matchesWordIgnoreCase label (js "json") = true ->
  forallb isWhiteSpace gap = true ->
  forallb isWhiteSpace gap' = true ->
  solidEnds body = true ->
  forallb (fun c => negb (c =? 96)%N) body = true ->
  stripCodeFence
    (lead ++ fence ++ label ++ gap ++ body ++ gap' ++ fence ++ post)
  = body.
Proof.
  intros Hlead Hlabel Hgap Hgap' Hsolid Htick.
  destruct (solidEnds_shape _ Hsolid) as (a & w1 & front & z & E1 & E2 & Ha & Hz).
  assert (Hcapture :
            lazyCapture (trimStart (gap ++ body ++ gap' ++ fence ++ post))
            = Some body).
  { rewrite trimStart_white by assumption.
    assert (trimStart (body ++ gap' ++ fence ++ post)
            = body ++ gap' ++ fence ++ post) as ->.
    { rewrite E1. cbn [app]. now apply trimStart_solid. }
    rewrite E2 in *. now apply lazyCapture_body. }
  assert (Hafter : afterLabel (label ++ gap ++ body ++ gap' ++ fence ++ post)
                   = gap ++ body ++ gap' ++ fence ++ post).
  { pose proof (matchesWordIgnoreCase_length _ _ Hlabel) as Hlen.
    change (List.length (js "json")) with 4%nat in Hlen.
    set (rest := gap ++ body ++ gap' ++ fence ++ post).
    assert (Hfirst : firstn 4 (label ++ rest) = label).
    { rewrite <- Hlen.
      now rewrite firstn_app, Nat.sub_diag, firstn_all, firstn_O, app_nil_r. }
    assert (Hskip : skipn 4 (label ++ rest) = rest).
    { rewrite <- Hlen.
      now rewrite skipn_app, Nat.sub_diag, skipn_all, skipn_O. }
    unfold afterLabel. now rewrite Hfirst, Hlabel, Hskip. }
  unfold stripCodeFence. rewrite firstFenced_skips by assumption.
  change (fence ++ label ++ gap ++ body ++ gap' ++ fence ++ post)
    with (96 :: 96 :: 96 :: label ++ gap ++ body ++ gap' ++ fence ++ post)%N.
  cbn [firstFenced].
  assert (startsWith
            (96 :: 96 :: 96 :: label ++ gap ++ body ++ gap' ++ fence ++ post)%N
            fence = true) as ->.
  { apply startsWith_iff. now eexists. }
  unfold matchAtFence. cbn [skipn]. rewrite Hafter, Hcapture.
  rewrite E1. reflexivity.
Qed.

(** X6 on a reply with a lead-in sentence and a fenced array. *)
Lemma stripCodeFence_fenced_body_witness :
  stripCodeFence
    (js "Here you go:" ++ [10]%N ++ fence ++ js "JSON" ++ [10]%N
       ++ js "[1, 2]" ++ [10]%N ++ fence ++ [10]%N)
  = js "[1, 2]".
Proof.
  exact (stripCodeFence_fenced_body
           (js "Here you go:" ++ [10]%N) (js "JSON") [10]%N (js "[1, 2]")
           [10]%N [10]%N eq_refl eq_refl eq_refl eq_refl eq_refl eq_refl).
Defined.

(** X7.  What [stripCodeFence] returns is a contiguous part of the text
    it was given, never something else. *)
Theorem stripCodeFence_part_of_text (text : jsstring) :
  includes text (stripCodeFence text) = true
  /\ (List.length (stripCodeFence text) <= List.length text)%nat.
Proof.
  assert (H : exists pre post, text = pre ++ stripCodeFence text ++ post).
  { unfold stripCodeFence.
    destruct (firstFenced text) as [[|c captured]|] eqn:E.
    - exists [], []. now rewrite app_nil_r.
    - now apply firstFenced_inside.
    - exists [], []. now rewrite app_nil_r. }
  split; [now apply includes_iff|].
  destruct H as (pre & post & H).
  apply (f_equal (@List.length _)) in H. rewrite !length_app in H. lia.
Qed.

(** X8.  [clampScore] is monotone on finite scores and leaves an integer
    between 0 and 100 as it is. *)
Theorem clampScore_monotone_and_exact :
  (forall a b : Q, (a <= b)%Q -> (clampScore (Fin a) <= clampScore (Fin b))%Z)
  /\ (forall z : Z, (0 <= z <= 100)%Z -> clampScore (ofZ z) = z).
Proof.
  split.
  - intros a b H. cbn [clampScore].
    pose proof (round_monotone H). lia.
  - intros z H. unfold ofZ. cbn [clampScore]. rewrite round_inject_Z. lia.
Qed.

(** X8 on the scores 72 and 72.4. *)
Lemma clampScore_monotone_and_exact_witness :
  clampScore (ofZ 72) = 72%Z
  /\ (clampScore (Fin (72 # 1)) <= clampScore (Fin (362 # 5)))%Z.
Proof.
  destruct clampScore_monotone_and_exact as [Hmono Hexact].
  split.
  - apply Hexact. lia.
  - apply Hmono. vm_compute. discriminate.
Defined.

(** X9.  Whatever the reply (entries missing, repeated, out of range, in
    any order, or none at all), a chunk returns one record for each of its
    memories, in the order of the memories, each carrying the fields of
    its memory. *)
Theorem chunk_returns_its_memories {rt : JsRuntime} (reply : LlmReply)
    (batch : list AgentMemory) :
  List.map base (scoreSingleBatch reply batch) = batch.
Proof. apply scoreSingleBatch_base. Qed.

(** X10.  With a batch size [step >= 1], [scoreBatch] returns one record
    for each memory, in the order of the memories, and sends
    [ceil(n / step)] requests for [n] memories. *)
Theorem scoreBatch_order_and_requests {rt : JsRuntime} (llm : Oracle)
    (step : positive) (k : nat) (memories : list AgentMemory) :
  List.map base (fst (scoreBatch llm (Some step) k memories)) = memories
  /\ snd (scoreBatch llm (Some step) k memories)
     = (k + (List.length memories + Pos.to_nat step - 1) / Pos.to_nat step)%nat.
Proof.
  unfold scoreBatch.
  destruct (scoreChunks_base llm (chunks step memories) k) as [H1 H2].
  rewrite concat_chunks in H1. rewrite chunks_count in H2. now split.
Qed.

(** X11.  In a chunk whose reply is an array without [null], a memory at
    a position for which the reply has no entry, or only entries whose
    score is not a finite number, gets the heuristic record with the tag
    ["llm-fallback"]; the other positions are not affected. *)
Theorem unmatched_position_falls_back {rt : JsRuntime}
    (items : list JsonItem) (batch : list AgentMemory) (idx : nat)
    (m : AgentMemory) :
  ~ In NullItem items ->
  (forall i s c r,
      In (Item i s c r) items ->
      strictEq i (ofZ (Z.of_nat idx)) = true -> isFinite s = false) ->
  nth_error batch idx = Some m ->
  nth_error (scoreSingleBatch (Content (ArrayOf items)) batch) idx
  = Some (withFallbackTag (scoreMemory m)).
Proof.
  intros Hnull Hnone Hnth.
  assert (Hcoerce : exists scores,
             coerceItems items = Ok scores
             /\ forall s, In s scores ->
                          In (Item (index s) (score s) (llm_category s)
                                (reasoning s)) items).
  { clear Hnone. induction items as [|[|i s c r] items IH].
    - exists []. split; [reflexivity | intros ? []].
    - exfalso. apply Hnull. now left.
    - destruct IH as (rest & Hrest & Hin).
      { intros H. apply Hnull. now right. }
      exists ({| index := i; score := s; llm_category := c; reasoning := r |}
                :: rest).
      split; [cbn; now rewrite Hrest|].
      intros s' [<- | Hs']; [now left | right; now apply Hin]. }
  destruct Hcoerce as (scores & Hscores & Hin).
  unfold scoreSingleBatch, tryScoreSingleBatch, parseScores. cbn [bind].
  rewrite Hscores. cbn [bind]. rewrite mapi_nth, Hnth. cbn [option_map].
  unfold scoreWith.
  destruct (findScore _ idx) as [s|] eqn:E; [|reflexivity].
  exfalso. apply findScore_In in E as [Hs Hidx].
  apply filter_In in Hs as [Hs Hfin]. apply andb_true_iff in Hfin as [_ Hfin].
  specialize (Hnone _ _ _ _ (Hin s Hs) Hidx). congruence.
Qed.

(** X11 on a reply whose only entry for position 0 has the score [NaN]. *)
Lemma unmatched_position_falls_back_witness :
  nth_error
    (scoreSingleBatch (rt := asciiRuntime)
       (Content (ArrayOf [Item (ofZ 0) NaN market_insight (js "unsure")]))
       [Examples.opsMemory]) 0
  = Some (withFallbackTag (scoreMemory (rt := asciiRuntime) Examples.opsMemory)).
Proof.
  apply (unmatched_position_falls_back (rt := asciiRuntime)).
  - intros [E | []]. discriminate E.
  - intros i s c r [E | []] _. now injection E as <- <- <- <-.
  - reflexivity.
Defined.

(* ===================================================================== *)
(** ** More properties of selection *)
(* ===================================================================== *)

Lemma filter_firstn_prefix {A : Type} (p : A -> bool) (j : nat) (xs : list A) :
  exists rest, filter p xs = filter p (firstn j xs) ++ rest.
Proof.
  exists (filter p (skipn j xs)).
  now rewrite <- filter_app, firstn_skipn.
Qed.

(** X12.  With a maximum per agent that is not negative, no more records
    are kept for an agent than the maximum allows. *)
Theorem kept_within_maximum (config : DistillConfig)
    (scored : list ScoredMemory) :
  leb (ofZ 0) (maxOutputPerAgent config) = true ->
  leb (ofZ (Z.of_nat (List.length (selectTop config scored))))
      (maxOutputPerAgent config) = true.
Proof.
  intros H. unfold selectTop. now apply slice0_cap.
Qed.

(** X12 on [Examples.threeScored] with the maximum 2. *)
Lemma kept_within_maximum_witness :
  (List.length
     (selectTop
        {| agents := []; minQualityScore := ofZ 60;
           maxOutputPerAgent := ofZ 2;
           categories := Examples.defaultCategories;
           dryRun := true; createSnapshot := false; forceRuleOnly := true |}
        Examples.threeScored) <= 2)%nat.
Proof.
  assert (H := kept_within_maximum
                 {| agents := []; minQualityScore := ofZ 60;
                    maxOutputPerAgent := ofZ 2;
                    categories := Examples.defaultCategories;
                    dryRun := true; createSnapshot := false;
                    forceRuleOnly := true |}
                 Examples.threeScored eq_refl).
  cbn [maxOutputPerAgent] in H.
  unfold leb, ofZ in H. apply Qle_bool_iff in H.
  rewrite <- Zle_Qle in H. apply Nat2Z.inj_le. exact H.
Defined.

(** X13.  What is kept for an agent is ranked: no record is followed by
    one with a higher score, and records of one score stand in the order
    the scorer returned them. *)
Theorem kept_ranked_and_stable (config : DistillConfig)
    (scored : list ScoredMemory) :
  StronglySorted (fun a b => (qualityScore b <= qualityScore a)%Z)
                 (selectTop config scored)
  /\ (forall q : Z,
         exists rest,
           filter (fun r => qualityScore r =? q)%Z
             (filter (eligible (categories config))
                (filter notNoise
                   (filter (meetsMinimum (minQualityScore config)) scored)))
           = filter (fun r => qualityScore r =? q)%Z (selectTop config scored)
               ++ rest).
Proof.
  unfold selectTop.
  set (passed := filter (eligible (categories config))
                   (filter notNoise
                      (filter (meetsMinimum (minQualityScore config)) scored))).
  destruct (slice0_firstn (maxOutputPerAgent config) (sortByScore passed))
    as [j ->].
  split.
  - pose proof (sortByScore_sorted passed) as Hs.
    rewrite <- (firstn_skipn j (sortByScore passed)) in Hs.
    now apply StronglySorted_app_inv in Hs.
  - intros q. rewrite <- (sortByScore_same_score q passed).
    apply filter_firstn_prefix.
Qed.

(** X14.  The records dropped by the maximum are the tail of the ranking:
    the ranked eligible records are the kept ones followed by the dropped
    ones, and no dropped record has a higher score than a kept one. *)
Theorem dropped_never_outrank_kept (config : DistillConfig)
    (scored : list ScoredMemory) :
  exists dropped,
    sortByScore
      (filter (eligible (categories config))
         (filter notNoise
            (filter (meetsMinimum (minQualityScore config)) scored)))
    = selectTop config scored ++ dropped
    /\ (forall a b, In a (selectTop config scored) -> In b dropped ->
                    (qualityScore b <= qualityScore a)%Z).
Proof.
  unfold selectTop.
  set (passed := filter (eligible (categories config))
                   (filter notNoise
                      (filter (meetsMinimum (minQualityScore config)) scored))).
  destruct (slice0_firstn (maxOutputPerAgent config) (sortByScore passed))
    as [j ->].
  exists (skipn j (sortByScore passed)).
  split; [now rewrite firstn_skipn|].
  pose proof (sortByScore_sorted passed) as Hs.
  rewrite <- (firstn_skipn j (sortByScore passed)) in Hs.
  apply StronglySorted_app_inv in Hs as (_ & _ & H). exact H.
Qed.

(* ===================================================================== *)
(** ** More properties of the run *)
(* ===================================================================== *)

Lemma selectTop_nil (config : DistillConfig) : selectTop config [] = [].
Proof.
  unfold selectTop. cbn [filter sortByScore].
  destruct (slice0_firstn (maxOutputPerAgent config) (@nil ScoredMemory))
    as [j ->].
  apply firstn_nil.
Qed.

Lemma nothing_in_nil {A : Type} (xs : list A) :
  (forall x, ~ In x xs) -> xs = [].
Proof.
  destruct xs as [|x xs]; [reflexivity|].
  intros H. exfalso. apply (H x). now left.
Qed.

(** X15.  Every record [distill] retains comes from the source collection
    of one of the configured agents, was let through by the pre-filter,
    meets the minimum quality score, is not noise and has one of the
    eligible categories. *)
Theorem retained_records_provenance {rt : JsRuntime} (env : Env)
    (store : Store) (llm : Oracle) (config : DistillConfig) (r : ScoredMemory) :
  In r (flatMemories (distill env store llm config)) ->
  (exists agent,
      In agent (agents config) /\ In (base r) (store agent))
  /\ preFilter (base r) = true
  /\ meetsMinimum (minQualityScore config) r = true
  /\ category r <> noise
  /\ In (category r) (categories config).
Proof.
  intros H. apply flatMemories_values in H as (key & v & Hv & Hr).
  revert r Hr.
  apply (selected_values env store llm config
           (fun v => forall r, In r v ->
              (exists agent,
                  In agent (agents config) /\ In (base r) (store agent))
              /\ preFilter (base r) = true
              /\ meetsMinimum (minQualityScore config) r = true
              /\ category r <> noise
              /\ In (category r) (categories config))) with (key := key);
    [|exact Hv].
  intros agent k Hagent r Hr.
  apply selectTop_In in Hr as (Hin & Hmin & Hnoise & Helig).
  apply scoreAll_base in Hin. apply filter_In in Hin as [Hstore Hpre].
  repeat split; try assumption.
  - eauto.
  - unfold notNoise in Hnoise. apply negb_true_iff in Hnoise.
    now apply str_eqb_neq.
  - now apply arr_includes_In.
Qed.

(** X15 on the rule-scored run over [Examples.twoRuleStore]. *)
Lemma retained_records_provenance_witness :
  preFilter (rt := asciiRuntime)
    (base (scoreMemory (rt := asciiRuntime) Examples.plainRuleMemory)) = true
  /\ In (category (scoreMemory (rt := asciiRuntime) Examples.plainRuleMemory))
        Examples.defaultCategories.
Proof.
  assert (H := retained_records_provenance (rt := asciiRuntime)
                 Examples.ruleEnv Examples.twoRuleStore Examples.praisingOracle
                 (Examples.configOf [js "ops"] (ofZ 0) false)
                 (scoreMemory (rt := asciiRuntime) Examples.plainRuleMemory)).
  destruct H as (_ & Hpre & _ & _ & Hcat).
  - vm_compute. now left.
  - split; assumption.
Defined.

(** X16.  In every run the report's counts are ordered: what is kept is
    between 0 and what is processed, so what is discarded is never
    negative. *)
Theorem report_counts_ordered {rt : JsRuntime} (env : Env) (store : Store)
    (llm : Oracle) (config : DistillConfig) :
  let rep := report (distill env store llm config) in
  (0 <= totalKept rep <= totalProcessed rep)%Z
  /\ (0 <= totalDiscarded rep)%Z
  /\ totalDiscarded rep = (totalProcessed rep - totalKept rep)%Z.
Proof.
  unfold distill. cbn [report totalKept totalProcessed totalDiscarded].
  pose proof (counters_ordered env store llm config (agents config)
                initialState) as H.
  cbn [initialState kept processed] in H. specialize (H ltac:(lia)).
  repeat split; lia.
Qed.



(** With the same agent listed twice the two counts differ: the agent's
    records are counted at each turn and stored once. *)
Example repeated_agent_counted_twice :
  let out := distill (rt := asciiRuntime) Examples.ruleEnv Examples.twoRuleStore
               Examples.praisingOracle
               (Examples.configOf [js "ops"; js "ops"] (ofZ 0) false) in
  totalKept (report out) = 2%Z /\ List.length (flatMemories out) = 1%nat.
Proof. split; reflexivity. Qed.

(* ===================================================================== *)
(** ** Further facts about the write, the padding and the counters *)
(* ===================================================================== *)




Lemma forallb_rev {A : Type} (p : A -> bool) (xs : list A) :
  forallb p xs = true -> forallb p (rev xs) = true.
Proof.
  rewrite !forallb_forall. intros H x Hx. apply H. now apply in_rev.
Qed.

(** White space around a text does not change what [trim] returns. *)
Lemma trim_padding (pad s pad' : jsstring) :
  forallb isWhiteSpace pad = true -> forallb isWhiteSpace pad' = true ->
  trim (pad ++ s ++ pad') = trim s.
Proof.
  intros Hpad Hpad'. unfold trim. rewrite trimStart_white by assumption.
  assert (Hfront : exists tailpad,
             forallb isWhiteSpace tailpad = true
             /\ trimStart (s ++ pad') = trimStart s ++ tailpad).
  { induction s as [|c s IH]; cbn [app trimStart].
    - exists []. split; [reflexivity|].
      rewrite <- (app_nil_r pad'). now rewrite trimStart_white.
    - destruct (isWhiteSpace c); [exact IH|].
      now exists pad'. }
  destruct Hfront as (tailpad & Htail & ->).
  unfold trimEnd. rewrite rev_app_distr.
  now rewrite trimStart_white by now apply forallb_rev.
Qed.

Section LastRunFacts.

Context {rt : JsRuntime}.


Lemma rule_step_ignores_llm (env env' : Env) (store : Store)
    (llm llm' : Oracle) (config : DistillConfig) :
  llmEnabled env config = false -> llmEnabled env' config = false ->
  forall agentList st,
    fold_left (distillAgent env config store llm) agentList st
    = fold_left (distillAgent env' config store llm') agentList st.
Proof.
  intros H H'. induction agentList as [|agent agentList IH]; intros st;
    [reflexivity|].
  cbn [fold_left]. rewrite IH. f_equal.
  unfold distillAgent, scoreAll. now rewrite H, H'.
Qed.

End LastRunFacts.

(** X18.  A batch size that is not a number makes the LLM scorer return no
    record at all: [scoreBatch] yields the empty list for every input, and
    a run with LLM scoring on retains nothing and reports zero kept. *)
Theorem nan_batch_size_scores_nothing {rt : JsRuntime} :
  (forall (llm : Oracle) (k : nat) (memories : list AgentMemory),
      fst (scoreBatch llm None k memories) = [])
  /\ (forall (env : Env) (store : Store) (llm : Oracle) (config : DistillConfig),
         llmEnabled env config = true ->
         llmBatchSize env = None ->
         flatMemories (distill env store llm config) = []
         /\ totalKept (report (distill env store llm config)) = 0%Z).
Proof.
  assert (Hbatch : forall llm k memories,
             fst (scoreBatch llm None k memories) = []).
  { intros llm k [|m ms]; [reflexivity|].
    cbn [scoreBatch scoreChunks fst]. rewrite app_nil_r.
    apply length_zero_iff_nil. apply scoreSingleBatch_length. }
  split; [exact Hbatch|].
  intros env store llm config Hon Hnan.
  assert (Hscored : forall k filtered,
             fst (scoreAll env config llm k filtered) = []).
  { intros k filtered. unfold scoreAll. rewrite Hon, Hnan. apply Hbatch. }
  split.
  - apply nothing_in_nil. intros r Hr.
    apply flatMemories_values in Hr as (key & v & Hv & Hr).
    assert (v = []) as ->; [|destruct Hr].
    apply (selected_values env store llm config (fun v => v = []))
      with (key := key); [|exact Hv].
    intros agent k _. rewrite Hscored. apply selectTop_nil.
  - unfold distill. cbn [report totalKept].
    apply (fold_left_invariant (distillAgent env config store llm)
             (fun st => kept st = 0%Z)); [|reflexivity].
    intros st agent _ Hst. unfold distillAgent.
    pose proof (Hscored (requests st) (filter preFilter (store agent))) as E.
    destruct (scoreAll env config llm (requests st)
                (filter preFilter (store agent))) as [scored k'].
    cbn [fst] in E. subst scored. cbn [kept].
    rewrite selectTop_nil. simpl. lia.
Qed.

(** X18 on a run over [Examples.ruleStore] whose batch size is not a
    number: the rule of the agent ["ops"], which a rule-scored run keeps,
    is lost. *)
Lemma nan_batch_size_scores_nothing_witness :
  flatMemories
    (distill (rt := asciiRuntime)
       {| llmScoringEnabled := true; llmBatchSize := None |}
       Examples.ruleStore Examples.praisingOracle
       (Examples.configOf [js "ops"] (ofZ 0) false)) = []
  /\ List.length
       (flatMemories
          (distill (rt := asciiRuntime) Examples.ruleEnv Examples.ruleStore
             Examples.praisingOracle
             (Examples.configOf [js "ops"] (ofZ 0) false))) = 1%nat.
Proof.
  split; [|reflexivity].
  apply (proj2 (nan_batch_size_scores_nothing (rt := asciiRuntime)));
    reflexivity.
Defined.

(** X19.  A run whose scorer is the heuristic one (LLM scoring off or
    rule-only forced) gives the same outcome whatever the service answers
    and whatever the batch size is set to. *)
Theorem rule_run_ignores_llm {rt : JsRuntime} (env env' : Env) (store : Store)
    (llm llm' : Oracle) (config : DistillConfig) :
  llmEnabled env config = false ->
  llmEnabled env' config = false ->
  distill env store llm config = distill env' store llm' config.
Proof.
  intros H H'. unfold distill.
  now rewrite (@rule_step_ignores_llm rt env env' store llm llm' config H H').
Qed.

(** X19 on a rule-only run, with LLM scoring switched on and off in the
    environment. *)
Lemma rule_run_ignores_llm_witness :
  distill (rt := asciiRuntime) Examples.llmEnv Examples.ruleStore
    Examples.praisingOracle (Examples.configOf [js "ops"] (ofZ 0) true)
  = distill (rt := asciiRuntime) Examples.ruleEnv Examples.ruleStore
      (fun _ _ => CallFails) (Examples.configOf [js "ops"] (ofZ 0) true).
Proof.
  apply rule_run_ignores_llm; reflexivity.
Defined.


(* ===================================================================== *)
(** ** More properties of the write and of the report *)
(* ===================================================================== *)




(** X22.  The [i]-th [upsert] request of [upsertGoldenMemories] carries
    the points of the memories [128 i] to [128 i + 127], and there are
    [ceil(n / 128)] requests for [n] memories. *)
Theorem upsert_requests_are_slices (memories : list ScoredMemory) :
  (forall i,
      nth_error (upsertGoldenMemories memories) i
      = if (i * 128 <? List.length memories)%nat
        then Some (List.map toPoint (firstn 128 (skipn (i * 128) memories)))
        else None)
  /\ List.length (upsertGoldenMemories memories)
     = ((List.length memories + 127) / 128)%nat.
Proof.
  destruct memories as [|m ms].
  - split; [|reflexivity]. intros i. cbn [upsertGoldenMemories].
    destruct i; reflexivity.
  - unfold upsertGoldenMemories. split.
    + intros i. rewrite chunks_nth, length_map.
      change (Pos.to_nat chunkSize) with 128%nat.
      now rewrite skipn_map, firstn_map.
    + rewrite chunks_count, length_map.
      change (Pos.to_nat chunkSize) with 128%nat.
      f_equal. lia.
Qed.

Lemma truncate_inject_Z (z : Z) : truncate (inject_Z z) = z.
Proof.
  unfold truncate.
  destruct (Qle_bool 0 (inject_Z z)); [apply Qfloor_Z | apply Qceiling_Z].
Qed.

(** [xs.slice(0, z)] for an integer [z >= 0]. *)
Lemma slice0_ofZ {A : Type} (z : Z) (xs : list A) :
  (0 <= z)%Z -> slice0 (ofZ z) xs = firstn (Z.to_nat z) xs.
Proof.
  intros H. unfold slice0, ofZ. rewrite truncate_inject_Z.
  now replace (0 <=? z)%Z with true by (symmetry; apply Z.leb_le; lia).
Qed.

Lemma truncate_length_le (text : jsstring) (limit : Z) :
  (3 <= limit)%Z ->
  (Z.of_nat (List.length (Report.truncate text limit)) <= limit)%Z.
Proof.
  intros Hlimit. unfold Report.truncate.
  destruct (limit <? Z.of_nat (List.length text))%Z eqn:E.
  - apply Z.ltb_lt in E. rewrite slice0_ofZ by lia.
    rewrite length_app, length_firstn.
    change (List.length (js "...")) with 3%nat. lia.
  - apply Z.ltb_ge in E. lia.
Qed.

(** X23.  For a limit of at least 3, [truncate] returns a text no longer
    than the limit: the text itself when it fits, and otherwise its first
    [limit - 3] characters followed by three dots, which is exactly
    [limit] long. *)
Theorem truncate_fits_limit (text : jsstring) (limit : Z) :
  (3 <= limit)%Z ->
  (Z.of_nat (List.length (Report.truncate text limit)) <= limit)%Z
  /\ ((Z.of_nat (List.length text) <= limit)%Z ->
      Report.truncate text limit = text)
  /\ ((limit < Z.of_nat (List.length text))%Z ->
      Report.truncate text limit
      = firstn (Z.to_nat (limit - 3)) text ++ js "..."
      /\ Z.of_nat (List.length (Report.truncate text limit)) = limit).
Proof.
  intros Hlimit. split; [now apply truncate_length_le|].
  unfold Report.truncate.
  destruct (limit <? Z.of_nat (List.length text))%Z eqn:E.
  - apply Z.ltb_lt in E. rewrite slice0_ofZ by lia.
    split; [lia|]. intros _. split; [reflexivity|].
    rewrite length_app, length_firstn.
    change (List.length (js "...")) with 3%nat. lia.
  - apply Z.ltb_ge in E. split; [reflexivity | lia].
Qed.

(** X23 on a text of 200 characters and the limit 160 of the report. *)
Lemma truncate_fits_limit_witness :
  Report.truncate (repeat 97%N 200) 160 = repeat 97%N 157 ++ js "...".
Proof.
  apply (@truncate_fits_limit (repeat 97%N 200) 160); [lia|].
  rewrite repeat_length. lia.
Defined.

(** With a limit below 3 the result is longer than the limit. *)
Example truncate_small_limit :
  Report.truncate (js "abcd") 2 = js "abc...".
Proof. reflexivity. Qed.

(** X24.  The preview of an agent shows the first five kept records, or
    all of them when there are fewer, with their scores and categories in
    order, and no preview text is longer than 160. *)
Theorem preview_shows_top_five (top : list ScoredMemory) :
  List.length (Report.topMemories top) = Nat.min 5 (List.length top)
  /\ List.map (fun p => (Report.preview_score p, Report.preview_category p))
       (Report.topMemories top)
     = List.map (fun r => (qualityScore r, category r)) (firstn 5 top)
  /\ Forall (fun p => (List.length (Report.preview_text p) <= 160)%nat)
            (Report.topMemories top).
Proof.
  unfold Report.topMemories.
  rewrite (slice0_ofZ (z := 5)) by lia.
  change (Z.to_nat 5) with 5%nat. split; [|split].
  - now rewrite length_map, length_firstn.
  - now rewrite map_map.
  - apply Forall_forall. intros p Hp.
    apply in_map_iff in Hp as (r & <- & _). cbn [Report.preview_text].
    pose proof (@truncate_length_le (text (base r)) 160 ltac:(lia)). lia.
Qed.

(* ===================================================================== *)
(** ** One more property of the pre-filter *)
(* ===================================================================== *)

(** X25.  White space in front of or behind a text does not change the
    verdict of the pre-filter. *)
Theorem preFilter_ignores_padding {rt : JsRuntime} (m padded : AgentMemory)
    (pad pad' : jsstring) :
  forallb isWhiteSpace pad = true ->
  forallb isWhiteSpace pad' = true ->
  text padded = pad ++ text m ++ pad' ->
  preFilter padded = preFilter m.
Proof.
  intros Hpad Hpad' Htext. unfold preFilter.
  now rewrite Htext, trim_padding.
Qed.

(** X25 on [Examples.plainRuleMemory] between a tab and a line feed. *)
Lemma preFilter_ignores_padding_witness :
  preFilter (rt := asciiRuntime)
    (Examples.memoryOf (js "ops")
       ([9]%N ++ text Examples.plainRuleMemory ++ [10]%N))
  = preFilter (rt := asciiRuntime) Examples.plainRuleMemory.
Proof.
  apply (@preFilter_ignores_padding asciiRuntime Examples.plainRuleMemory
           (Examples.memoryOf (js "ops")
              ([9]%N ++ text Examples.plainRuleMemory ++ [10]%N))
           [9]%N [10]%N); reflexivity.
Defined.
(* ===================================================================== *)
(** ** The processed count *)
(* ===================================================================== *)

Lemma processed_sum {rt : JsRuntime} (env : Env) (store : Store)
    (llm : Oracle) (config : DistillConfig) (agentList : list jsstring) :
  forall st,
    processed (fold_left (distillAgent env config store llm) agentList st)
    = (processed st
       + Z.of_nat
           (list_sum
              (List.map (fun agent => List.length (filter preFilter (store agent)))
                 agentList)))%Z.
Proof.
  induction agentList as [|agent agentList IH]; intros st; cbn [fold_left].
  - simpl. lia.
  - rewrite IH.
    assert (processed (distillAgent env config store llm st agent)
            = (processed st
               + Z.of_nat (List.length (filter preFilter (store agent))))%Z) as ->.
    { unfold distillAgent.
      now destruct (scoreAll env config llm (requests st)
                      (filter preFilter (store agent))). }
    cbn [List.map]. unfold list_sum. cbn [fold_right]. lia.
Qed.

(** X26.  The processed count of the report is the number of memories of
    the configured agents that the pre-filter lets through, an agent
    listed twice counted twice; the scorer, the thresholds and the
    categories have no part in it. *)
Theorem processed_counts_prefiltered {rt : JsRuntime} (env : Env)
    (store : Store) (llm : Oracle) (config : DistillConfig) :
  totalProcessed (report (distill env store llm config))
  = Z.of_nat
      (list_sum
         (List.map (fun agent => List.length (filter preFilter (store agent)))
            (agents config))).
Proof.
  unfold distill. cbn [report totalProcessed].
  rewrite processed_sum. reflexivity.
Qed.
